(** * Multitaper line-noise removal: a shallow embedding

    This development embeds the windowed multitaper notch filter of
    [PreProcess/filter.py] and of its successor [ieeg/mt_filter.py] and
    checks the statements of the design document against it.

    Conventions.
    - A Python computation that may raise and that may log a report is a
      value of [M A]: the reports logged so far, and either the exception
      or the result.
    - 64-bit floats are modelled by exact rationals ([Qc]); rounding error
      is outside the model.  Integer and float dtypes are kept apart where
      the code's behaviour depends on them (NumPy type promotion).
    - An n-dimensional buffer is its shape tuple together with its vectors
      along the last axis, in row-major order; the filter only ever works
      along the last axis.
    - The numerical routines that are not part of the two files (taper
      bank, spectra, sine F-test, F quantile, cosine, modulus, argument)
      are the fields of the class [NumLib].
    - The type checks of [PreProcess/utils.py] that the filter calls
      ([is_number], [validate_type], [ensure_int]) work on [pyobj], the
      Python values they tell apart. *)

From Stdlib Require Import QArith Qcanon Qround.
From stdpp Require Import base numbers list gmap sorting strings.

Local Open Scope Z_scope.
Local Open Scope nat_scope.

(** ** Python runtime *)

Inductive exn : Type :=
| ValueError (msg : string)
| TypeError
| AttributeError
| AssertionError
| IndexError
| ZeroDivisionError
| RuntimeError.

Inductive framing : Type := Detected | Removed.

(** One logged summary: the framing word and the [(frequency, count)]
    rows in the order they are printed. *)
Definition report : Type := framing * list (Z * nat).

Definition M (A : Type) : Type := list report * (exn + A).

Definition ret {A} (a : A) : M A := ([], inr a).
Definition raise {A} (e : exn) : M A := ([], inl e).
Definition bind {A B} (k : A -> M B) (m : M A) : M B :=
  match m with
  | (l, inl e) => (l, inl e)
  | (l, inr a) => match k a with (l', r) => (l ++ l', r) end
  end.
Definition logger_info (r : report) : M unit := ([r], inr tt).

#[global] Instance M_ret : MRet M := @ret.
#[global] Instance M_bind : MBind M := @bind.

(** A call into a library that may raise but does not log. *)
Definition result (A : Type) : Type := (exn + A)%type.
Definition lift {A} (r : result A) : M A := ([], r).

(** The value a computation returned, if it returned. *)
Definition returned {A} (m : M A) : option A :=
  match m.2 with inr a => Some a | inl _ => None end.
Definition raised {A} (m : M A) : option exn :=
  match m.2 with inl e => Some e | inr _ => None end.
Definition logged {A} (m : M A) : list report := m.1.

Fixpoint mapM {A B} (f : A -> M B) (l : list A) : M (list B) :=
  match l with
  | [] => ret []
  | a :: l => b ← f a; bs ← mapM f l; ret (b :: bs)
  end.

(** ** NumPy scalars and one-dimensional typed arrays *)

Inductive npnum : Type := NInt (z : Z) | NFloat (q : Qc).

Definition to_float (a : npnum) : Qc :=
  match a with NInt z => Qc_of_Z z | NFloat q => q end.

(** [a * b]: the product of two integers is an integer, any float operand
    promotes the result to float. *)
Definition np_mul (a b : npnum) : npnum :=
  match a, b with
  | NInt x, NInt y => NInt (x * y)
  | _, _ => NFloat (to_float a * to_float b)
  end.

(** [a / b] is true division: always a float. *)
Definition np_truediv (a b : npnum) : Qc := (to_float a / to_float b)%Qc.

(** [a < 0] *)
Definition np_negative (a : npnum) : bool :=
  match a with
  | NInt z => bool_decide (z < 0)%Z
  | NFloat q => bool_decide (q < 0)%Qc
  end.

Inductive ndarray1 : Type := IntArr (l : list Z) | FloatArr (l : list Qc).

Definition arr_items (a : ndarray1) : list npnum :=
  match a with IntArr l => NInt <$> l | FloatArr l => NFloat <$> l end.
Definition arr_len (a : ndarray1) : nat := length (arr_items a).

(** [np.array(l)] for a Python sequence of numbers: an integer array when
    every item is an integer, a float array otherwise. *)
Fixpoint all_ints (l : list npnum) : option (list Z) :=
  match l with
  | [] => Some []
  | NInt z :: l => cons z <$> all_ints l
  | NFloat _ :: _ => None
  end.
Definition np_array (l : list npnum) : ndarray1 :=
  match l with
  | [] => FloatArr []
  | _ => match all_ints l with
         | Some zs => IntArr zs
         | None => FloatArr (to_float <$> l)
         end
  end.

(** [np.ones_like(a)] keeps the dtype of [a]. *)
Definition np_ones_like (a : ndarray1) : ndarray1 :=
  match a with
  | IntArr l => IntArr ((fun _ => 1%Z) <$> l)
  | FloatArr l => FloatArr ((fun _ => 1%Qc) <$> l)
  end.

(** [s * a] for a NumPy scalar [s] and an array [a]. *)
Definition np_scalar_mul (s : npnum) (a : ndarray1) : ndarray1 :=
  match s, a with
  | NInt z, IntArr l => IntArr (Z.mul z <$> l)
  | _, _ => FloatArr ((fun b => to_float (np_mul s b)) <$> arr_items a)
  end.

(** [a / 200.0] *)
Definition np_div_float (a : ndarray1) (d : Qc) : ndarray1 :=
  FloatArr ((fun b => to_float b / d)%Qc <$> arr_items a).

(** A Python argument that is [None], a number, a list or tuple of
    numbers, or an array. *)
Inductive pyarg : Type :=
| PyNone
| PyNum (a : npnum)
| PySeq (l : list npnum)
| PyArr (a : ndarray1).

(** [np.atleast_1d] *)
Definition np_atleast_1d (v : pyarg) : M ndarray1 :=
  match v with
  | PyNone => raise TypeError
  | PyNum (NInt z) => ret (IntArr [z])
  | PyNum (NFloat q) => ret (FloatArr [q])
  | PySeq l => ret (np_array l)
  | PyArr a => ret a
  end.

(** [np.any(v < 0)]: a list or a tuple does not compare with a number. *)
Definition np_any_negative (v : pyarg) : M bool :=
  match v with
  | PyNone => raise TypeError
  | PyNum a => ret (np_negative a)
  | PySeq _ => raise TypeError
  | PyArr a => ret (existsb np_negative (arr_items a))
  end.

(** [len(v)] and iteration over [v]. *)
Definition py_items (v : pyarg) : M (list npnum) :=
  match v with
  | PyNone | PyNum _ => raise TypeError
  | PySeq l => ret l
  | PyArr a => ret (arr_items a)
  end.

(** ** Buffers *)

Definition complex : Type := Qc * Qc.
Definition cscale (k : Qc) (c : complex) : complex := ((k * c.1)%Qc, (k * c.2)%Qc).
Definition czero : complex := (0%Qc, 0%Qc).

Record ndarray : Type := NDArray {
  shape : list nat;
  rows : list (list Qc)
}.

Definition prod_list (l : list nat) : nat := foldr Nat.mul 1 l.

(** A buffer is well formed when its vectors match its shape. *)
Definition well_shaped (x : ndarray) : Prop :=
  shape x ≠ [] ∧
  length (rows x) = prod_list (removelast (shape x)) ∧
  Forall (fun r => length r = default 0 (last (shape x))) (rows x).

(** ** Numerical routines outside the two files *)

(** [filter_length]: ['auto'], another string such as ['700ms'], a number
    of samples, or [None]. *)
Inductive length_arg : Type :=
| LenAuto
| LenStr (s : string)
| LenInt (n : nat)
| LenNone.

Class NumLib : Type := {
  (** a taper set [window_fun], a [K x n] matrix *)
  tapers : Type;
  taper_count : tapers -> nat;    (* len(window_fun) *)
  taper_len : tapers -> nat;      (* window_fun.shape[-1] *)
  (** [mt_params(n_times, sfreq, bandwidth, low_bias, adaptive)] *)
  mt_params : nat -> Qc -> option Qc -> bool -> bool -> result tapers;
  (** [scipy.stats.f.ppf(q, dfn, dfd)] *)
  f_ppf : Qc -> Z -> Z -> Qc;
  (** [mt_spectra(x, window_fun, sfreq)]: spectra and frequency axis *)
  spectra : Type;
  mt_spectra : list Qc -> tapers -> Qc -> spectra * list Qc;
  (** [sine_f_test(window_fun, x_p)]: row 0 of the F statistic and of the
      amplitude estimate *)
  sine_f_test : tapers -> spectra -> list Qc * list complex;
  np_pi : Qc;
  np_cos : Qc -> Qc;
  np_abs : complex -> Qc;
  np_angle : complex -> Qc;
  (** [to_samples(filter_length, sfreq)] *)
  to_samples : length_arg -> Qc -> result nat;
  (** [pick._picks_to_idx(n_channels, picks)] *)
  picks_to_idx : nat -> option (list Z) -> result (list nat);
  (** the crossfade weights of one window of the overlap-add engine:
      is it the first window, is it the last, its length *)
  cola_window : bool -> bool -> nat -> list Qc
}.

(** ** Helpers shared by the two files *)

Definition py_index {A} (l : list A) (i : nat) : M A :=
  match l !! i with
  | Some a => ret a
  | None => raise IndexError
  end.

(** [p / n] for a Python float [p] and a Python int [n]. *)
Definition py_div (p : Qc) (n : nat) : M Qc :=
  if decide (n = 0) then raise ZeroDivisionError
  else ret (p / Qc_of_Z (Z.of_nat n))%Qc.

(** The window overlap both files compute: [(n_samples + 1) // 2]. *)
Definition overlap_of (n_samples : nat) : nat := (n_samples + 1) / 2.

(** Lines 101-114 of [filter.py], 118-131 of [mt_filter.py]: the target
    frequencies and the notch widths after validation. *)
Definition notch_setup (freqs notch_widths : pyarg) : M (pyarg * pyarg) :=
  match freqs with
  | PyNone => ret (freqs, notch_widths)
  | _ =>
    freqs ← np_atleast_1d freqs;
    match notch_widths with
    | PyNone => ret (PyArr freqs, PyArr (np_div_float freqs (Qc_of_Z 200)))
    | _ =>
      negative ← np_any_negative notch_widths;
      if (negative : bool) then raise (ValueError "notch_widths must be >= 0")
      else
        widths ← np_atleast_1d notch_widths;
        match arr_items widths with
        | [w] => ret (PyArr freqs, PyArr (np_scalar_mul w (np_ones_like freqs)))
        | _ =>
          if decide (arr_len widths ≠ arr_len freqs)
          then raise (ValueError
            "notch_widths must be None, scalar, or the same length as freqs")
          else ret (PyArr freqs, PyArr widths)
        end
    end
  end.

(** [np.where(f_stat > threshold)[1]]: the bins above the threshold, in
    increasing order. *)
Fixpoint where_from (i : nat) (f_stat : list Qc) (threshold : Qc) : list nat :=
  match f_stat with
  | [] => []
  | v :: f_stat =>
    if decide (threshold < v)%Qc
    then i :: where_from (S i) f_stat threshold
    else where_from (S i) f_stat threshold
  end.
Definition np_where_gt (f_stat : list Qc) (threshold : Qc) : list nat :=
  where_from 0 f_stat threshold.

(** [(freq - notch_width / 2, freq + notch_width / 2)] over
    [zip(line_freqs, notch_widths)]. *)
Definition notch_ranges (line_freqs notch_widths : list npnum) : list (Qc * Qc) :=
  zip_with (fun freq notch_width =>
              ((to_float freq - np_truediv notch_width (NInt 2))%Qc,
               (to_float freq + np_truediv notch_width (NInt 2))%Qc))
           line_freqs notch_widths.

(** [any(lower <= f <= upper for (lower, upper) in ranges)] *)
Definition in_ranges (ranges : list (Qc * Qc)) (f : Qc) : bool :=
  existsb (fun r => bool_decide (r.1 ≤ f)%Qc && bool_decide (f ≤ r.2)%Qc) ranges.

(** The comprehension that keeps the indices whose frequency lies in a
    range; [freqs[ind]] is looked up only when there is a range to test. *)
Fixpoint keep_in_ranges (ranges : list (Qc * Qc)) (freqs : list Qc)
    (indices : list nat) : M (list nat) :=
  match indices with
  | [] => ret []
  | ind :: indices =>
    keep ← match ranges with
           | [] => ret false
           | _ => f ← py_index freqs ind; ret (in_ranges ranges f)
           end;
    rest ← keep_in_ranges ranges freqs indices;
    ret (if (keep : bool) then ind :: rest else rest)
  end.

(** The block "specify frequencies within indicated ranges". *)
Definition restrict_indices (line_freqs notch_widths : pyarg)
    (freqs : list Qc) (indices : list nat) : M (list nat) :=
  match line_freqs, notch_widths with
  | PyNone, _ | _, PyNone => ret indices
  | _, _ =>
    widths ← match notch_widths with
             | PyNum w => lf ← py_items line_freqs; ret (replicate (length lf) w)
             | _ => py_items notch_widths
             end;
    lf ← py_items line_freqs;
    keep_in_ranges (notch_ranges lf widths) freqs indices
  end.

(** [x - datafit], where [datafit] is the float [0.0] or an array. *)
Inductive operand : Type := Scalar (q : Qc) | Arr (l : list Qc).

Definition np_sub (x : list Qc) (d : operand) : list Qc :=
  match d with
  | Scalar q => (fun v => (v - q)%Qc) <$> x
  | Arr l => zip_with Qcminus x l
  end.

(** [np.sum(fits, axis=0)] for fits of [n] samples each. *)
Definition np_sum_axis0 (n : nat) (fits : list (list Qc)) : list Qc :=
  foldr (zip_with Qcplus) (replicate n 0%Qc) fits.

Definition np_round (q : Qc) : Z :=
  let f := Qfloor q in
  let d := (q - Qc_of_Z f)%Qc in
  if decide (d < Q2Qc (1 # 2))%Qc then f
  else if decide (Q2Qc (1 # 2) < d)%Qc then (f + 1)%Z
  else if Z.even f then f else (f + 1)%Z.

(** [np.unique(a).tolist()]: sorted, without repetition. *)
Definition np_unique (l : list Z) : list Z := merge_sort Z.le (remove_dups l).

(** [collections.Counter(l)] *)
Definition Counter (l : list Z) : gmap Z nat :=
  foldl (fun m k => <[k := S (default 0 (m !! k))]> m) ∅ l.

(** [sorted(counts)] *)
Definition sorted_keys (counts : gmap Z nat) : list Z :=
  merge_sort Z.le (elements (dom counts)).

(** The rows of the logged summary, [(freq, counts[freq])] for [freq] in
    [sorted(counts)]. *)
Definition found_freqs (counts : gmap Z nat) : list (Z * nat) :=
  (fun freq => (freq, default 0 (counts !! freq))) <$> sorted_keys counts.

(** [x_out[..., start:stop] += b]: the slice is clipped to the array; [b]
    must have the length of the slice or a single item. *)
Definition slice_iadd (a : list Qc) (start stop : nat) (b : list Qc) : M (list Qc) :=
  let lo := start `min` length a in
  let hi := stop `min` length a in
  let target := take (hi - lo) (drop lo a) in
  if decide (length b = length target)
  then ret (take lo a ++ zip_with Qcplus target b ++ drop hi a)
  else match b with
       | [v] => ret (take lo a ++ ((fun t => (t + v)%Qc) <$> target) ++ drop hi a)
       | _ => raise (ValueError "operands could not be broadcast together")
       end.

(** The state the closures [process] and [store] share. *)
Record win_state : Type := WinState {
  x_out : list Qc;
  rm_freqs : list (list Qc);
  idx : nat
}.

(** [store] of [_mt_remove_win] and of [WindowingRemover.__call__]. *)
Definition store (st : win_state) (x_ : list Qc) : M win_state :=
  let stop := idx st + length x_ in
  out ← slice_iadd (x_out st) (idx st) stop x_;
  ret (WinState out (rm_freqs st) stop).

(** [process] of [_mt_remove_win] and of [WindowingRemover.__call__],
    for the call of [_mt_remove] that it wraps: the removed frequencies
    are appended to [rm_freqs], the cleaned chunk is returned. *)
Definition chunk_process (remove : list Qc -> M (list Qc * list Qc))
    (st : win_state) (x_ : list Qc) : M (list Qc * win_state) :=
  out ← remove x_;
  ret (out.1, WinState (x_out st) (rm_freqs st ++ [out.2]) (idx st)).

Fixpoint overlap_add (a b : list Qc) : list Qc :=
  match a, b with
  | [], _ => b
  | _, [] => a
  | u :: a, v :: b => (u + v)%Qc :: overlap_add a b
  end.

(** [np.arange(0, stop, step)], [np.repeat(a, k)] and [np.tile(a, k)]. *)
Definition np_arange (stop step : nat) : M (list nat) :=
  if decide (step = 0) then raise ZeroDivisionError
  else ret ((fun i => i * step) <$> seq 0 ((stop + step - 1) / step)).
Definition np_repeat (a : list nat) (k : nat) : list nat :=
  a ≫= replicate k.
Definition np_tile (a : list nat) (k : nat) : list nat :=
  concat (replicate k a).

Definition np_atleast_2d (x : ndarray) : ndarray :=
  match shape x with
  | [] => NDArray [1; 1] (rows x)
  | [n] => NDArray [1; n] (rows x)
  | _ => x
  end.

Section Engine.
Context `{NumLib}.

(** One fitted sinusoid of [_mt_remove], for [c = 2 * A[0, ind]] and
    [f = freqs[ind]]:
    [rads = 2 * np.pi * (np.arange(x.size) / float(sfreq))],
    [fit = np.abs(c) * np.cos(f * rads + np.angle(c))]. *)
Definition rads (sfreq : Qc) (n : nat) : list Qc :=
  (fun t => (2 * np_pi * (Qc_of_Z (Z.of_nat t) / sfreq))%Qc) <$> seq 0 n.

Definition sinusoid (sfreq : Qc) (n : nat) (f : Qc) (c : complex) : list Qc :=
  (fun r => (np_abs c * np_cos (f * r + np_angle c))%Qc) <$> rads sfreq n.

(** The body of [_mt_remove] once the taper set and the threshold of
    the chunk are settled; the two files agree on it line by line. *)
Definition remove_lines (x : list Qc) (sfreq : Qc)
    (line_freqs notch_widths : pyarg) (window_fun : tapers)
    (threshold : Qc) : M (list Qc * list Qc) :=
  let '(x_p, freqs) := mt_spectra x window_fun sfreq in
  let '(f_stat, A) := sine_f_test window_fun x_p in
  let indices := np_where_gt f_stat threshold in
  indices ← restrict_indices line_freqs notch_widths freqs indices;
  fits ← mapM (fun ind =>
                 a ← py_index A ind;
                 let c := cscale 2 a in
                 f ← py_index freqs ind;
                 ret (sinusoid sfreq (length x) f c)) indices;
  let datafit := match fits with
                 | [] => Scalar 0
                 | _ => Arr (np_sum_axis0 (length x) fits)
                 end in
  removed ← mapM (py_index freqs) indices;
  ret (np_sub x datafit, removed).

(** Modelled from the spec: the overlap-add engine ([_COLA] of
    [PreProcess.utils.utils], [COLA] of [ieeg.process]) is not among the
    files at hand.  Section 4.5 of the design document: windows of
    [n_samples] samples start every [n_samples - n_overlap] samples, left
    to right, and the last one is clipped to the samples that remain;
    each chunk is processed, weighted by its crossfade window and added
    at its start offset; the samples no later window reaches are handed
    to [store] in order.  [pending] is the part of the accumulator that
    the next window still overlaps, [buf] the input from the start of the
    current window on. *)
Fixpoint cola_feed {St : Type}
    (process : St -> list Qc -> M (list Qc * St))
    (store : St -> list Qc -> M St)
    (n_samples n_overlap : nat) (fuel : nat) (first : bool)
    (pending buf : list Qc) (st : St) : M St :=
  match fuel with
  | 0 => raise RuntimeError
  | S fuel =>
    let last := bool_decide (length buf ≤ n_samples) in
    let chunk := take n_samples buf in
    '(out, st) ← process st chunk;
    let weighted :=
      imap (fun i v => (v * nth i (cola_window first last (length chunk)) 1)%Qc)
           out in
    let acc := overlap_add pending weighted in
    if last then store st acc
    else
      let step := n_samples - n_overlap in
      st ← store st (take step acc);
      cola_feed process store n_samples n_overlap fuel false
                (drop step acc) (drop step buf) st
  end.

(** [COLA(process, store, n_total, n_samples, n_overlap, sfreq).feed(x)] *)
Definition COLA {St : Type}
    (process : St -> list Qc -> M (list Qc * St))
    (store : St -> list Qc -> M St)
    (n_total n_samples n_overlap : nat) (x : list Qc) (st : St) : M St :=
  cola_feed process store n_samples n_overlap (S n_total) true [] x st.

(** The chunks [cola_feed] hands to [process], in order. *)
Fixpoint cola_chunks (n_samples n_overlap : nat) (fuel : nat)
    (buf : list Qc) : list (list Qc) :=
  match fuel with
  | 0 => []
  | S fuel =>
    let chunk := take n_samples buf in
    if bool_decide (length buf ≤ n_samples) then [chunk]
    else chunk :: cola_chunks n_samples n_overlap fuel
                              (drop (n_samples - n_overlap) buf)
  end.

(** [_prep_for_filtering], the same in the two files. *)
Definition prep_for_filtering (x : ndarray) (picks : option (list Z))
  : M (ndarray * list nat * list nat) :=
  let orig_shape := shape x in
  let x := np_atleast_2d x in
  picks ← lift (picks_to_idx (nth (length (shape x) - 2) (shape x) 0) picks);
  let x := NDArray [prod_list (removelast (shape x));
                    default 0 (last (shape x))] (rows x) in
  picks ← match orig_shape with
          | [n_epochs; n_channels; n_times] =>
            starts ← np_arange (n_channels * n_epochs) n_channels;
            let offset := np_repeat starts (length picks) in
            ret (zip_with Nat.add (np_tile picks n_epochs) offset)
          | _ =>
            if decide (3 < length orig_shape)
            then raise (ValueError
              "picks argument is not supported for data with more than three dimensions")
            else ret picks
          end;
  if forallb (fun pick => bool_decide (pick < hd 0 (shape x))) picks
  then ret (x, orig_shape, picks)
  else raise AssertionError.

(** The summary line: [Counter] over the rounded frequencies, the rows
    sorted by frequency. *)
Definition kind_of (line_freqs : pyarg) : framing :=
  match line_freqs with PyNone => Detected | _ => Removed end.
End Engine.

(** A recording: sampling rate, which channels are data channels, and the
    samples, one row per channel. *)
Record Signal : Type := MkSignal {
  info_sfreq : Qc;
  ch_is_data : list bool;
  _data : list (list Qc)
}.

(** [raw.get_data("data")]: a fresh array with the data channels. *)
Definition get_data (raw : Signal) : ndarray :=
  let picked := (fun p => p.2) <$> filter (fun p => p.1 = true)
                                          (zip (ch_is_data raw) (_data raw)) in
  NDArray [length picked; length (hd [] (_data raw))] picked.

(** [filt._data[data_idx] = y]: the rows of [y] replace the data
    channels, in order. *)
Fixpoint set_data_rows (mask : list bool) (data y : list (list Qc))
  : list (list Qc) :=
  match mask, data with
  | true :: mask, d :: data =>
    match y with
    | r :: y => r :: set_data_rows mask data y
    | [] => d :: set_data_rows mask data y
    end
  | false :: mask, d :: data => d :: set_data_rows mask data y
  | _, _ => data
  end.

(** ** [PreProcess/filter.py] *)

Module Filter.
Section WithLib.
Context `{NumLib}.

(** The closure [get_window_thresh] that [line_filter] defines; its
    default argument is [filter_length]. *)
Definition get_window_thresh (fs : Qc) (mt_bandwidth : option Qc)
    (p_value : Qc) (low_bias adaptive : bool) (filter_length : nat)
    (n_times : option nat) : M (tapers * Qc) :=
  let n_times := default filter_length n_times in
  window_fun ← lift (mt_params n_times fs mt_bandwidth low_bias adaptive);
  q ← py_div p_value n_times;
  ret (window_fun,
       f_ppf (1 - q) 2 (2 * Z.of_nat (taper_count window_fun) - 2)).

Definition _mt_remove (x : list Qc) (sfreq : Qc)
    (line_freqs notch_widths : pyarg) (window_fun : tapers)
    (threshold : Qc) (get_thresh : option nat -> M (tapers * Qc))
  : M (list Qc * list Qc) :=
  '(window_fun, threshold) ←
    (if decide (length x ≠ taper_len window_fun)
     then get_thresh (Some (length x))
     else ret (window_fun, threshold));
  remove_lines x sfreq line_freqs notch_widths window_fun threshold.

Definition _mt_remove_win (x : list Qc) (sfreq : Qc)
    (line_freqs notch_width : pyarg)
    (get_thresh : option nat -> M (tapers * Qc))
  : M (list Qc * list (list Qc)) :=
  '(window_fun, thresh) ← get_thresh None;
  let n_times := length x in
  let n_samples := taper_len window_fun in
  let n_overlap := overlap_of n_samples in
  let st := WinState (replicate n_times 0%Qc) [] 0 in
  let process :=
    chunk_process (fun x_ => _mt_remove x_ sfreq line_freqs notch_width
                                        window_fun thresh get_thresh) in
  st ← COLA process store n_times n_samples n_overlap x st;
  if decide (idx st = n_times) then ret (x_out st, rm_freqs st)
  else raise AssertionError.

(** The loop over [enumerate(x)]: the filtered rows and [freq_list]. *)
Fixpoint channels (filt : list Qc -> M (list Qc * list (list Qc)))
    (picks : list nat) (ii : nat) (xs : list (list Qc))
  : M (list (list Qc) * list (list (list Qc))) :=
  match xs with
  | [] => ret ([], [])
  | x_ :: xs =>
    if bool_decide (ii ∈ picks) then
      '(y, f) ← filt x_;
      '(ys, freq_list) ← channels filt picks (S ii) xs;
      ret (y :: ys, f :: freq_list)
    else
      '(ys, freq_list) ← channels filt picks (S ii) xs;
      ret (x_ :: ys, freq_list)
  end.

Definition mt_spectrum_proc (x : ndarray) (sfreq : Qc)
    (line_freqs notch_widths : pyarg) (picks : option (list Z))
    (get_wt : option nat -> M (tapers * Qc)) : M ndarray :=
  '(x, orig_shape, picks) ← prep_for_filtering x picks;
  '(ys, freq_list) ←
    channels (fun x_ => _mt_remove_win x_ sfreq line_freqs notch_widths get_wt)
             picks 0 (rows x);
  let counts :=
    Counter (concat ((fun ff => np_unique (np_round <$> ff))
                       <$> concat freq_list)) in
  _ ← logger_info (kind_of line_freqs, found_freqs counts);
  ret (NDArray orig_shape ys).

(** [line_filter]; the model is pure, so [copy] makes no difference to
    the value returned and is left out, as are [n_jobs] and [verbose]. *)
Definition line_filter (raw : Signal) (fs : option Qc) (freqs : pyarg)
    (filter_length : length_arg) (notch_widths : pyarg)
    (mt_bandwidth : option Qc) (p_value : Qc) (picks : option (list Z))
    (adaptive low_bias : bool) : M Signal :=
  let fs := default (info_sfreq raw) fs in
  let filt := raw in
  let x := get_data filt in
  '(freqs, notch_widths) ← notch_setup freqs notch_widths;
  let data_idx := ch_is_data raw in
  let n_times := default 0 (last (shape x)) in
  let filter_length := match filter_length with
                       | LenAuto => LenStr "10s"
                       | LenNone => LenInt n_times
                       | l => l
                       end in
  n ← lift (to_samples filter_length fs);
  let filter_length := n `min` n_times in
  let get_wt := get_window_thresh fs mt_bandwidth p_value low_bias adaptive
                                  filter_length in
  y ← mt_spectrum_proc x fs freqs notch_widths picks get_wt;
  ret (MkSignal (info_sfreq filt) (ch_is_data filt)
                (set_data_rows data_idx (_data filt) (rows y))).
End WithLib.
End Filter.

(** ** [ieeg/mt_filter.py] *)

Module MtFilter.
Section WithLib.
Context `{NumLib}.

Record WindowingRemover : Type := MkRemover {
  sfreq : Qc;
  line_freqs : pyarg;
  notch_width : pyarg;
  p_value : option Qc;
  filter_length : nat;
  low_bias : bool;
  adaptive : bool;
  bandwidth : option Qc
}.

(** [__init__(self, sfreq, line_freqs, notch_width, filter_length,
    low_bias, adaptive, bandwidth, p_value)]: each argument is stored
    under its own name. *)
Definition __init__ (sfreq : Qc) (line_freqs notch_width : pyarg)
    (filter_length : nat) (low_bias adaptive : bool)
    (bandwidth p_value : option Qc) : WindowingRemover :=
  {| sfreq := sfreq; line_freqs := line_freqs; notch_width := notch_width;
     p_value := p_value; filter_length := filter_length;
     low_bias := low_bias; adaptive := adaptive; bandwidth := bandwidth |}.

(** [get_thresh]; [functools.cache] only memoises it. *)
Definition get_thresh (self : WindowingRemover) (n_times : option nat)
  : M (tapers * Qc) :=
  let n_times := default (filter_length self) n_times in
  window_fun ← lift (mt_params n_times (sfreq self) (bandwidth self)
                           (low_bias self) (adaptive self));
  p ← match p_value self with
      | Some p => ret p
      | None => raise TypeError
      end;
  q ← py_div p n_times;
  ret (window_fun,
       f_ppf (1 - q) 2 (2 * Z.of_nat (taper_count window_fun) - 2)).

(** The callables a [get_thresh] argument can be: the method
    [self.get_thresh], bound to a [functools.cache] wrapper, which has
    the attributes [__self__], [__func__] and [__wrapped__]; or a
    [functools.partial] object, which has [func] and [args]. *)
Inductive callable : Type :=
| BoundMethod (self : WindowingRemover)
| Partial (func : list nat -> M (tapers * Qc)) (args : list nat).

Definition attr_func (c : callable) : M (list nat -> M (tapers * Qc)) :=
  match c with
  | Partial func _ => ret func
  | BoundMethod _ => raise AttributeError
  end.
Definition attr_args (c : callable) : M (list nat) :=
  match c with
  | Partial _ args => ret args
  | BoundMethod _ => raise AttributeError
  end.

Definition _mt_remove (x : list Qc) (sfreq : Qc)
    (line_freqs notch_widths : pyarg) (window_fun : tapers)
    (threshold : Qc) (get_thresh : callable) : M (list Qc * list Qc) :=
  '(window_fun, threshold) ←
    (if decide (length x ≠ taper_len window_fun)
     then func ← attr_func get_thresh;
          args ← attr_args get_thresh;
          func (length x :: tail args)
     else ret (window_fun, threshold));
  remove_lines x sfreq line_freqs notch_widths window_fun threshold.

(** [WindowingRemover.__call__] *)
Definition __call__ (self : WindowingRemover) (x : list Qc) : M (list Qc) :=
  '(window_fun, thresh) ← get_thresh self None;
  let n_times := length x in
  let n_samples := taper_len window_fun in
  let n_overlap := overlap_of n_samples in
  let st := WinState (replicate n_times 0%Qc) [] 0 in
  let process :=
    chunk_process (fun x_ => _mt_remove x_ (sfreq self) (line_freqs self)
                                        (notch_width self) window_fun thresh
                                        (BoundMethod self)) in
  st ← COLA process store n_times n_samples n_overlap x st;
  if decide (idx st = n_times) then
    let counts :=
      Counter (concat ((fun ff => np_unique [np_round ff])
                         <$> concat (rm_freqs st))) in
    _ ← logger_info (kind_of (line_freqs self), found_freqs counts);
    ret (x_out st)
  else raise AssertionError.

(** Modelled from the spec: [proc_array] ([ieeg.process]) is not among
    the files at hand.  Sections 4.6 and 5 of the design document: one
    independent run per channel, each writing its own row of the
    buffer.  It is handed the callable and the 2-D view only, so it
    runs [func] on every row of the view. *)
Definition proc_array (func : list Qc -> M (list Qc)) (x : ndarray) : M ndarray :=
  ys ← mapM func (rows x);
  ret (NDArray (shape x) ys).

(** [mt_spectrum_proc], for the dispatcher it calls. *)
Definition mt_spectrum_proc_with
    (proc_array : (list Qc -> M (list Qc)) -> ndarray -> M ndarray)
    (x : ndarray) (process : list Qc -> M (list Qc))
    (picks : option (list Z)) : M ndarray :=
  '(x, orig_shape, picks) ← prep_for_filtering x picks;
  x ← proc_array process x;
  ret (NDArray orig_shape (rows x)).

Definition mt_spectrum_proc : ndarray -> (list Qc -> M (list Qc)) ->
    option (list Z) -> M ndarray :=
  mt_spectrum_proc_with proc_array.

(** Lines 143-144 of [line_filter]:
    [WindowingRemover(fs, freqs, notch_widths, filter_length, adaptive,
    low_bias, p_value, mt_bandwidth)], the arguments passed by position. *)
Definition line_filter_process (fs : Qc) (freqs notch_widths : pyarg)
    (filter_length : nat) (adaptive low_bias : bool) (p_value : Qc)
    (mt_bandwidth : option Qc) : WindowingRemover :=
  __init__ fs freqs notch_widths filter_length adaptive low_bias
           (Some p_value) mt_bandwidth.

Definition line_filter (raw : Signal) (fs : option Qc) (freqs : pyarg)
    (filter_length : length_arg) (notch_widths : pyarg)
    (mt_bandwidth : option Qc) (p_value : Qc) (picks : option (list Z))
    (adaptive low_bias : bool) : M Signal :=
  let fs := default (info_sfreq raw) fs in
  let filt := raw in
  let x := get_data filt in
  '(freqs, notch_widths) ← notch_setup freqs notch_widths;
  let data_idx := ch_is_data raw in
  let n_times := default 0 (last (shape x)) in
  let filter_length := match filter_length with
                       | LenNone => LenInt n_times
                       | l => l
                       end in
  n ← lift (to_samples filter_length fs);
  let filter_length := n `min` n_times in
  let process := line_filter_process fs freqs notch_widths filter_length
                                     adaptive low_bias p_value mt_bandwidth in
  y ← mt_spectrum_proc x (__call__ process) picks;
  ret (MkSignal (info_sfreq filt) (ch_is_data filt)
                (set_data_rows data_idx (_data filt) (rows y))).
End WithLib.
End MtFilter.


(** ** [PreProcess/utils.py] and the input check of [filter.py] *)

(** The Python values the checks tell apart: [None], [bool], [int],
    [float], [str], a NumPy scalar ([np.int64], [np.float64]), a list or
    a tuple of Python ints and floats, an array of dtype [int64] or
    [float64], a pandas frame or series (with whether it casts to
    float), and an instance of [BaseRaw], [BaseEpochs] or [Evoked].
    Ints are taken within the 64-bit range, so that a sequence of ints
    becomes an [int64] array. *)
Inductive pyobj : Type :=
| ObjNone
| ObjBool (b : bool)
| ObjInt (z : Z)
| ObjFloat (q : Qc)
| ObjStr (s : string)
| ObjNpNum (a : npnum)
| ObjList (l : list npnum)
| ObjTuple (l : list npnum)
| ObjArray (a : ndarray1)
| ObjDataFrame (numeric : bool)
| ObjSeries (numeric : bool)
| ObjSignal (raw : Signal).

Inductive pyclass : Type :=
| cls_NoneType | cls_bool | cls_int | cls_float | cls_str
| cls_np_number | cls_list | cls_tuple | cls_ndarray
| cls_DataFrame | cls_Series
| cls_Signal.   (* one of BaseRaw, BaseEpochs, Evoked *)

(** [isinstance(o, c)]: [bool] derives from [int], [np.float64] from
    [float]; [np.int64] does not derive from [int]. *)
Definition instance_of (o : pyobj) (c : pyclass) : bool :=
  match o, c with
  | ObjNone, cls_NoneType => true
  | ObjBool _, (cls_bool | cls_int) => true
  | ObjInt _, cls_int => true
  | ObjFloat _, cls_float => true
  | ObjStr _, cls_str => true
  | ObjNpNum (NInt _), cls_np_number => true
  | ObjNpNum (NFloat _), (cls_np_number | cls_float) => true
  | ObjList _, cls_list => true
  | ObjTuple _, cls_tuple => true
  | ObjArray _, cls_ndarray => true
  | ObjDataFrame _, cls_DataFrame => true
  | ObjSeries _, cls_Series => true
  | ObjSignal _, cls_Signal => true
  | _, _ => false
  end.

(** [isinstance(o, (c1, ..., cn))] *)
Definition isinstance (o : pyobj) (cs : list pyclass) : bool :=
  existsb (instance_of o) cs.

(** The [types] argument of [validate_type]: a [TypeVar] with its
    constraints, a class, or a tuple of classes. *)
Inductive typespec : Type :=
| TypeVar (constraints : list pyclass)
| Class (c : pyclass)
| Classes (cs : list pyclass).

(** [operator.index(x)] *)
Definition operator_index (x : pyobj) : result Z :=
  match x with
  | ObjBool b => inr (if b then 1 else 0)%Z
  | ObjInt z => inr z
  | ObjNpNum (NInt z) => inr z
  | _ => inl TypeError
  end.

(** [try: ... except TypeError: handler] *)
Definition except_TypeError {A} (body : M A) (handler : M A) : M A :=
  match body with
  | (l, inl TypeError) => match handler with (l', r) => (l ++ l', r) end
  | _ => body
  end.

Section Utils.
(** Whether [float(s)] returns for the string [s]. *)
Variable float_parses : string -> bool.

Definition is_number (s : pyobj) : bool :=
  if isinstance s [cls_str] then
    match s with ObjStr str => float_parses str | _ => false end
  else if isinstance s [cls_np_number; cls_int; cls_float] then true
  else if isinstance s [cls_DataFrame] then
    match s with ObjDataFrame numeric => numeric | _ => false end
  else if isinstance s [cls_Series] then
    match s with ObjSeries numeric => numeric | _ => false end
  else false.

Definition ensure_int (x : pyobj) : M Z :=
  except_TypeError
    (if isinstance x [cls_bool] then raise TypeError
     else lift (operator_index x))
    (raise TypeError).

Definition validate_type (item : pyobj) (types : typespec) : M unit :=
  check ← except_TypeError
    (match types with
     | TypeVar constraints => ret (isinstance item constraints)
     | Class cls_int => _ ← ensure_int item; ret true
     | Class cls_float => ret (is_number item)
     | Class c => ret (isinstance item [c])
     | Classes cs => ret (isinstance item cs)
     end)
    (ret false);
  if (check : bool) then ret tt else raise TypeError.

(** [_check_filterable(x, kind, alternative)] of [filter.py].  After
    [validate_type] the argument is an array, a list or a tuple;
    [np.asanyarray] leaves an array as it is and builds one from a
    sequence. *)
Definition _check_filterable (x : pyobj) (kind : string) : M ndarray1 :=
  if isinstance x [cls_Signal] then raise TypeError
  else
    _ ← validate_type x (Classes [cls_ndarray; cls_list; cls_tuple]);
    x ← match x with
        | ObjArray a => ret a
        | ObjList l | ObjTuple l => ret (np_array l)
        | _ => raise TypeError
        end;
    match x with
    | FloatArr _ => ret x
    | IntArr _ =>
      raise (ValueError
               ("Data to be " +:+ kind +:+ " must be real floating, got int64"))
    end.
End Utils.

(** [store] called on the segments [segs], one after the other. *)
Fixpoint store_all (st : win_state) (segs : list (list Qc)) : M win_state :=
  match segs with
  | [] => ret st
  | seg :: segs => st ← store st seg; store_all st segs
  end.

(** The channel count [_prep_for_filtering] resolves the picks against:
    [np.atleast_2d(x).shape[-2]]. *)
Definition n_channels (x : ndarray) : nat :=
  nth (length (shape (np_atleast_2d x)) - 2) (shape (np_atleast_2d x)) 0.

(** ** A small backend for running the model

    A deterministic stand-in for the numerical routines: the frequency
    axis is [axis] whatever the chunk; every bin carries the first sample
    of the chunk as its F statistic and half of it as its amplitude; the
    cosine is constantly one and the F quantile is the level itself.  It
    only serves to evaluate the definitions on concrete inputs. *)
Definition demo_lib (axis : list Qc) : NumLib := {|
  tapers := nat * nat;
  taper_count := fst;
  taper_len := snd;
  mt_params := fun n _ _ _ _ => inr (4, n);
  f_ppf := fun q _ _ => q;
  spectra := Qc;
  mt_spectra := fun x _ _ => (hd 0%Qc x, axis);
  sine_f_test := fun _ e =>
    (replicate (length axis) e, replicate (length axis) ((e / 2)%Qc, 0%Qc));
  np_pi := Q2Qc (355 # 113);
  np_cos := fun _ => 1%Qc;
  np_abs := fun c => c.1;
  np_angle := fun _ => 0%Qc;
  to_samples := fun l _ =>
    match l with
    | LenInt n => inr n
    | LenStr _ => inr 10
    | _ => inl TypeError
    end;
  picks_to_idx := fun n picks =>
    match picks with
    | None => inr (seq 0 n)
    | Some l => inr (Z.to_nat <$> l)
    end;
  cola_window := fun _ _ _ => []
|}.

Definition qz (z : Z) : Qc := Qc_of_Z z.

(** ** The statements of the design document, as written there *)

(** Section 4.5: "overlap = ceil((window_length+1)/2) samples". *)
Definition spec_overlap (window_length : nat) : nat :=
  Z.to_nat (Qceiling (inject_Z (Z.of_nat window_length + 1) / 2)).

(** [ceil(window_length / 2)] *)
Definition ceil_half (window_length : nat) : nat :=
  Z.to_nat (Qceiling (inject_Z (Z.of_nat window_length) / 2)).

(** Modelled from the spec: section 4.5 has the windows start every
    [hop = window_length - overlap] samples and "adjacent windows' linear
    crossfade ramps sum to unity".  The weight of sample [i] of a window
    of [n_samples] samples that overlaps its neighbours by [n_overlap]
    samples: it rises linearly over the first [n_overlap] samples and
    falls linearly over the last [n_overlap] samples.  [ramp_up L] is
    [np.linspace(0, 1, L)] and [ramp_down L] is [np.linspace(1, 0, L)]. *)
Definition ramp_up (L j : nat) : Qc :=
  if decide (L ≤ 1) then 0%Qc
  else (Qc_of_Z (Z.of_nat j) / Qc_of_Z (Z.of_nat (L - 1)))%Qc.
Definition ramp_down (L j : nat) : Qc := (1 - ramp_up L j)%Qc.
Definition crossfade (n_samples n_overlap i : nat) : Qc :=
  if decide (n_samples ≤ i) then 0%Qc
  else if decide (i < n_overlap) then ramp_up n_overlap i
  else ramp_down n_overlap (i - (n_samples - n_overlap)).

(** Modelled from the spec: "the input is exactly covered without
    gaps".  What the windows cover, read off window by window: the first
    [hop] samples of every window but the last, then the last window. *)
Fixpoint stitched (hop : nat) (chunks : list (list Qc)) : list Qc :=
  match chunks with
  | [] => []
  | c :: cs =>
    match cs with
    | [] => c
    | _ => take hop c ++ stitched hop cs
    end
  end.

(** "Negative widths": does the argument hold a negative number. *)
Definition has_negative (v : pyarg) : bool :=
  match v with
  | PyNone => false
  | PyNum a => np_negative a
  | PySeq l => existsb np_negative l
  | PyArr a => existsb np_negative (arr_items a)
  end.

(** The number of entries of a list or an array of widths. *)
Definition width_count (v : pyarg) : option nat :=
  match v with
  | PySeq l => Some (length l)
  | PyArr a => Some (arr_len a)
  | PyNone | PyNum _ => None
  end.

(** "The number of target frequencies". *)
Definition target_count (freqs : pyarg) : nat :=
  match freqs with
  | PyNone => 0
  | PyNum _ => 1
  | PySeq l => length l
  | PyArr a => arr_len a
  end.

(** Decidable equality, for evaluating closed statements. *)
#[global] Instance exn_eq_dec : EqDecision exn.
Proof. solve_decision. Defined.
#[global] Instance framing_eq_dec : EqDecision framing.
Proof. solve_decision. Defined.
#[global] Instance npnum_eq_dec : EqDecision npnum.
Proof. solve_decision. Defined.
#[global] Instance ndarray1_eq_dec : EqDecision ndarray1.
Proof. solve_decision. Defined.
#[global] Instance pyarg_eq_dec : EqDecision pyarg.
Proof. solve_decision. Defined.
#[global] Instance ndarray_eq_dec : EqDecision ndarray.
Proof. solve_decision. Defined.
#[global] Instance Signal_eq_dec : EqDecision Signal.
Proof. solve_decision. Defined.
#[global] Instance M_eq_dec {A} `{EqDecision A} : EqDecision (M A).
Proof. unfold M. apply _. Defined.

(** Section 4.3: "the (1 - p_value/window_length) quantile of the
    F-distribution with (2, 2K-2) degrees of freedom". *)
Definition spec_threshold `{NumLib} (p_value : Qc) (window_length K : nat) : Qc :=
  f_ppf (1 - p_value / Qc_of_Z (Z.of_nat window_length)) 2
        (2 * Z.of_nat K - 2).

(** Section 4.3: a frequency "falls within [freq - width/2, freq + width/2]". *)
Definition in_notch (freq width f : Qc) : Prop :=
  (freq - width / 2 ≤ f)%Qc ∧ (f ≤ freq + width / 2)%Qc.

(** Section 4.4: the composite fit at sample [t], the sum over the
    significant bins of [|2 A(f)| cos(2 pi f t + angle(2 A(f)))] at
    [t = sample_index / sampling_rate]. *)
Definition spec_fit `{NumLib} (sfreq : Qc) (freqs : list Qc) (A : list complex)
    (bins : list nat) (sample_index : nat) : Qc :=
  let t := (Qc_of_Z (Z.of_nat sample_index) / sfreq)%Qc in
  foldr (fun ind acc =>
           let f := default 0%Qc (freqs !! ind) in
           let a := cscale 2 (default czero (A !! ind)) in
           (np_abs a * np_cos (2 * np_pi * f * t + np_angle a) + acc)%Qc)
        0%Qc bins.

(** Section 4.4: the chunk minus the composite fit. *)
Definition spec_cleaned `{NumLib} (sfreq : Qc) (freqs : list Qc)
    (A : list complex) (bins : list nat) (x : list Qc) : list Qc :=
  imap (fun t v => (v - spec_fit sfreq freqs A bins t)%Qc) x.

(** What [notch_setup] leaves behind: no targets at all, or an array of
    targets and an array of widths of the same length. *)
Definition validated (line_freqs notch_widths : pyarg) : Prop :=
  line_freqs = PyNone ∨
  ∃ fa wa, line_freqs = PyArr fa ∧ notch_widths = PyArr wa ∧
           arr_len wa = arr_len fa.

(** The value of [indices] in [_mt_remove] once the range filter has
    run, for validated arguments (lemma [restrict_indices_selected]). *)
Definition selected_bins (line_freqs notch_widths : pyarg)
    (freqs f_stat : list Qc) (threshold : Qc) : list nat :=
  match line_freqs, notch_widths with
  | PyArr fa, PyArr wa =>
    List.filter
      (fun i => in_ranges (notch_ranges (arr_items fa) (arr_items wa))
                          (default 0%Qc (freqs !! i)))
      (np_where_gt f_stat threshold)
  | _, _ => np_where_gt f_stat threshold
  end.

(** Sections 4.3 and 4.4: bin [i] is significant when its F statistic
    exceeds the threshold and, with target frequencies, its frequency
    falls within the notch of some target. *)
Definition significant (line_freqs notch_widths : pyarg)
    (freqs f_stat : list Qc) (threshold : Qc) (i : nat) : Prop :=
  (∃ v, f_stat !! i = Some v ∧ (threshold < v)%Qc) ∧
  match line_freqs, notch_widths with
  | PyArr fa, PyArr wa =>
    ∃ f k freq width,
      freqs !! i = Some f ∧ arr_items fa !! k = Some freq ∧
      arr_items wa !! k = Some width ∧
      in_notch (to_float freq) (to_float width) f
  | _, _ => True
  end.

(** The taper set and threshold a chunk is processed with in
    [filter.py]: the default ones when the chunk has their length, else
    what [get_thresh] returns for the length of the chunk. *)
Definition settled `{NumLib} (x : list Qc) (wf0 : tapers) (thr0 : Qc)
    (get_thresh : option nat -> M (tapers * Qc)) (wf : tapers) (thr : Qc) : Prop :=
  (length x = taper_len wf0 ∧ wf = wf0 ∧ thr = thr0) ∨
  (length x ≠ taper_len wf0 ∧ get_thresh (Some (length x)) = ret (wf, thr)).

(** Both removers return [R] for the chunk [x] processed with the taper
    set [wf] and the threshold [thr]: [filter.py] whenever these are the
    ones the chunk settles on, [mt_filter.py] when the chunk has the
    length of the taper set it is given. *)
Definition removers_return `{NumLib} (x : list Qc) (sf : Qc)
    (lf nw : pyarg) (wf : tapers) (thr : Qc) (R : list Qc * list Qc) : Prop :=
  (∀ wf0 thr0 get, settled x wf0 thr0 get wf thr ->
     Filter._mt_remove x sf lf nw wf0 thr0 get = ret R) ∧
  (∀ get, length x = taper_len wf ->
     MtFilter._mt_remove x sf lf nw wf thr get = ret R).

(** Section 4.6: "number of chunks where it was removed", for the 1 Hz
    bin [freq] and the removal records [chunks], one per chunk. *)
Definition spec_chunk_count (freq : Z) (chunks : list (list Qc)) : nat :=
  length (filter (fun ff => freq ∈ (np_round <$> ff)) chunks).

(** The table [filter.py] reports for the removal records of all
    channels, and the table [mt_filter.py] reports for those of one
    channel. *)
Definition Filter_table (freq_list : list (list (list Qc))) : list (Z * nat) :=
  found_freqs (Counter (concat ((fun ff => np_unique (np_round <$> ff))
                                  <$> concat freq_list))).
Definition MtFilter_table (rm_freqs : list (list Qc)) : list (Z * nat) :=
  found_freqs (Counter (concat ((fun ff => np_unique [np_round ff])
                                  <$> concat rm_freqs))).

(** The number of occurrences of [k] in [l]. *)
Definition occurrences (k : Z) (l : list Z) : nat :=
  length (filter (fun a => a = k) l).

(** Inputs for running the model on the small backend: two channels of
    three samples, the target 60 Hz with a 10 Hz notch, one window per
    channel. *)
Definition demo_axis : list Qc := [qz 0; qz 60; qz 120].
Definition demo_buffer : ndarray :=
  NDArray [2; 3] [qz <$> [5; 1; 2]%Z; qz <$> [7; 1; 2]%Z].
Definition demo_get_wt : option nat -> M (nat * nat * Qc) :=
  @Filter.get_window_thresh (demo_lib demo_axis) (qz 1000) None
    (Q2Qc (1 # 20)) true true 3.
Definition demo_remover : MtFilter.WindowingRemover :=
  MtFilter.line_filter_process (qz 1000) (PyArr (IntArr [60%Z]))
    (PyArr (IntArr [10%Z])) 3 true true (Q2Qc (1 # 20)) (Some (Q2Qc (1 # 20))).

(** One channel of five samples for windows of four: a full window and a
    final chunk of three samples. *)
Definition demo_channel : list Qc := qz <$> [5; 1; 2; 3; 4]%Z.
Definition demo_get_wt4 : option nat -> M (nat * nat * Qc) :=
  @Filter.get_window_thresh (demo_lib demo_axis) (qz 1000) None
    (Q2Qc (1 # 20)) true true 4.
Definition demo_remove4 (c : list Qc) : M (list Qc * list Qc) :=
  @Filter._mt_remove (demo_lib demo_axis) c (qz 1000) (PyArr (IntArr [60%Z]))
    (PyArr (IntArr [10%Z])) (4, 4) (Q2Qc (79 # 80)) demo_get_wt4.
Definition demo_result4 (c : list Qc) : list Qc * list Qc :=
  match (demo_remove4 c).2 with
  | inr r => r
  | inl _ => (c, [])
  end.

(** Two epochs of two channels of three samples. *)
Definition demo_epochs : ndarray :=
  NDArray [2; 2; 3]
    [qz <$> [5; 1; 2]%Z; qz <$> [7; 1; 2]%Z;
     qz <$> [6; 0; 1]%Z; qz <$> [8; 3; 4]%Z].

(** * Properties *)

(** ** The monad *)

Lemma bind_ret_l {A B} (a : A) (k : A -> M B) : (ret a ≫= k) = k a.
Proof. unfold mbind, M_bind, bind, ret. by destruct (k a). Qed.

Lemma bind_raise {A B} (e : exn) (k : A -> M B) : (raise e ≫= k) = raise e.
Proof. done. Qed.

Lemma bind_lift_inr {A B} (a : A) (k : A -> M B) : (lift (inr a) ≫= k) = k a.
Proof. apply bind_ret_l. Qed.

Lemma bind_lift_inl {A B} (e : exn) (k : A -> M B) :
  (lift (inl e) ≫= k) = raise e.
Proof. done. Qed.

Lemma bind_inr_inv {A B} (m : M A) (k : A -> M B) l b :
  (m ≫= k) = (l, inr b) ->
  ∃ l1 a l2, m = (l1, inr a) ∧ k a = (l2, inr b) ∧ l = l1 ++ l2.
Proof.
  unfold mbind, M_bind, bind. destruct m as [l1 [e|a]]; [done|].
  destruct (k a) as [l2 r] eqn:Hk. intros [= <- ->]. by exists l1, a, l2.
Qed.

Lemma bind_raised {A B} (m : M A) (k : A -> M B) e :
  m = raise e -> (m ≫= k) = raise e.
Proof. by intros ->. Qed.

Ltac msimpl :=
  repeat first
    [ rewrite bind_ret_l | rewrite bind_raise
    | rewrite bind_lift_inr | rewrite bind_lift_inl ].

(** ** Arithmetic on [Qc] *)

Lemma Qc_of_Z_1 : Qc_of_Z 1 = 1%Qc.
Proof. by apply Qc_is_canon. Qed.

Lemma Qcmult_of_Z_1 (w : Qc) : (w * Qc_of_Z 1)%Qc = w.
Proof. rewrite Qc_of_Z_1. ring. Qed.

(** ** The window overlap (C3) *)

Lemma Qceiling_half (z : Z) : Qceiling (inject_Z z / 2) = ((z + 1) / 2)%Z.
Proof.
  unfold Qceiling, Qfloor. cbn. rewrite Z.mul_1_r.
  change (Z.pos (1 * 2)) with 2%Z. Z.div_mod_to_equations. lia.
Qed.

Lemma ceil_half_spec (n : nat) : ceil_half n = (n + 1) / 2.
Proof.
  unfold ceil_half. rewrite Qceiling_half.
  rewrite <- (Nat2Z.id ((n + 1) / 2)). f_equal.
  rewrite Nat2Z.inj_div, Nat2Z.inj_add. done.
Qed.

Lemma spec_overlap_spec (n : nat) : spec_overlap n = (n + 2) / 2.
Proof.
  unfold spec_overlap. rewrite Qceiling_half.
  rewrite <- (Nat2Z.id ((n + 2) / 2)). f_equal.
  rewrite Nat2Z.inj_div, Nat2Z.inj_add. f_equal. lia.
Qed.

(** C3, as written, fails: for a window of four samples the code
    overlaps two samples, the document's formula gives three. *)
Lemma overlap_differs_for_even_window :
  overlap_of 4 = 2 ∧ spec_overlap 4 = 3 ∧ overlap_of 4 ≠ spec_overlap 4.
Proof. by vm_compute. Qed.

Lemma overlap_of_hop (n_samples : nat) :
  n_samples - overlap_of n_samples = n_samples / 2 ∧
  n_samples - overlap_of n_samples ≤ overlap_of n_samples ∧
  overlap_of n_samples ≤ n_samples.
Proof.
  unfold overlap_of.
  pose proof (Nat.div_mod_eq (n_samples + 1) 2).
  pose proof (Nat.div_mod_eq n_samples 2).
  pose proof (Nat.mod_upper_bound (n_samples + 1) 2).
  pose proof (Nat.mod_upper_bound n_samples 2).
  lia.
Qed.

Lemma Qc_of_Z_0 : Qc_of_Z 0 = 0%Qc.
Proof. by apply Qc_is_canon. Qed.

Lemma Qc_of_Z_pos_neq_0 (k : nat) : 0 < k -> Qc_of_Z (Z.of_nat k) ≠ 0%Qc.
Proof.
  intros Hk Heq. apply (f_equal this) in Heq.
  unfold Qc_of_Z, inject_Z in Heq. cbn in Heq. injection Heq. lia.
Qed.

Lemma ramp_up_first (L : nat) : ramp_up L 0 = 0%Qc.
Proof.
  unfold ramp_up. destruct (decide (L ≤ 1)); [done|].
  replace (Qc_of_Z (Z.of_nat 0)) with 0%Qc by (by apply Qc_is_canon).
  unfold Qcdiv. ring.
Qed.

Lemma ramp_up_last (L : nat) : 2 ≤ L -> ramp_up L (L - 1) = 1%Qc.
Proof.
  intros HL. unfold ramp_up. rewrite decide_False by lia.
  unfold Qcdiv. apply Qcmult_inv_r, Qc_of_Z_pos_neq_0. lia.
Qed.

Lemma crossfade_sum (n L hop i : nat) :
  n = hop + L -> L = hop ∨ L = S hop -> i < hop ->
  (crossfade n L i + crossfade n L (i + hop) + crossfade n L (i + 2 * hop) = 1)%Qc ∧
  ∀ k, 3 ≤ k -> crossfade n L (i + k * hop) = 0%Qc.
Proof.
  intros Hn HL Hi. split.
  - unfold crossfade. replace (n - L) with hop by lia.
    repeat (destruct (decide _); try lia).
    + assert (i = 0) as -> by lia. assert (L = S hop) as -> by lia.
      replace (0 + 2 * hop - hop) with (S hop - 1) by lia.
      replace (0 + hop) with (S hop - 1) by lia.
      unfold ramp_down. rewrite ramp_up_first, ramp_up_last by lia. ring.
    + replace (i + hop - hop) with i by lia. unfold ramp_down. ring.
  - intros k Hk. unfold crossfade. rewrite decide_True; [done|]. nia.
Qed.

Lemma cola_chunks_nonempty (n ov fuel : nat) (buf : list Qc) :
  cola_chunks n ov (S fuel) buf ≠ [].
Proof. cbn [cola_chunks]. by destruct (bool_decide _). Qed.

Lemma stitched_cola_chunks (n ov : nat) :
  ov ≤ n ->
  ∀ fuel buf,
    length buf < fuel -> 1 ≤ n - ov ∨ length buf ≤ n ->
    stitched (n - ov) (cola_chunks n ov fuel buf) = buf.
Proof.
  intros Hov. induction fuel as [|fuel IH]; intros buf Hfuel Hhop; [lia|].
  cbn [cola_chunks]. case_bool_decide as Hlen.
  - cbn. by rewrite take_ge.
  - assert (1 ≤ n - ov) as Hstep by lia.
    assert (length (drop (n - ov) buf) < fuel) as Hrest
      by (rewrite length_drop; lia).
    pose proof (IH (drop (n - ov) buf) Hrest (or_introl Hstep)) as Hst.
    destruct fuel as [|fuel']; [lia|].
    pose proof (cola_chunks_nonempty n ov fuel' (drop (n - ov) buf)) as Hne.
    destruct (cola_chunks n ov (S fuel') (drop (n - ov) buf)) as [|r rs] eqn:Hc;
      [done|].
    cbn [stitched]. cbn [stitched] in Hst. rewrite Hst.
    rewrite take_take, Nat.min_l by lia. apply take_drop.
Qed.

(** With the overlap of the document, three samples for a window of
    four, the hop is one sample and the ramps of the windows that meet
    at a sample add up to three halves, not to one. *)
Lemma document_overlap_breaks_crossfade :
  spec_overlap 4 = 3 ∧
  (crossfade 4 3 0 + crossfade 4 3 1 + crossfade 4 3 2 + crossfade 4 3 3
   = Q2Qc (3 # 2))%Qc.
Proof. split; compute_done. Qed.

(** C3, amended: the overlap [_mt_remove_win] and [__call__] hand to
    the engine is [(n_samples + 1) // 2], that is [ceil(n_samples / 2)],
    and the hop [n_samples - overlap] is [floor(n_samples / 2)]; windows
    at that hop cover the input exactly, without gaps, and their linear
    crossfade ramps sum to unity at every sample. *)
Theorem overlap_is_ceil_half `{NumLib} :
  (∀ x sf lf nw get,
     Filter._mt_remove_win x sf lf nw get =
       ('(window_fun, thresh) ← get None;
        st ← COLA (chunk_process
                     (fun x_ => Filter._mt_remove x_ sf lf nw window_fun
                                                  thresh get))
                  store (length x) (taper_len window_fun)
                  (ceil_half (taper_len window_fun)) x
                  (WinState (replicate (length x) 0%Qc) [] 0);
        if decide (idx st = length x) then ret (x_out st, rm_freqs st)
        else raise AssertionError)) ∧
  (∀ self x,
     MtFilter.__call__ self x =
       ('(window_fun, thresh) ← MtFilter.get_thresh self None;
        st ← COLA (chunk_process
                     (fun x_ => MtFilter._mt_remove x_ (MtFilter.sfreq self)
                                  (MtFilter.line_freqs self)
                                  (MtFilter.notch_width self) window_fun thresh
                                  (MtFilter.BoundMethod self)))
                  store (length x) (taper_len window_fun)
                  (ceil_half (taper_len window_fun)) x
                  (WinState (replicate (length x) 0%Qc) [] 0);
        if decide (idx st = length x) then
          _ ← logger_info (kind_of (MtFilter.line_freqs self),
                           MtFilter_table (rm_freqs st));
          ret (x_out st)
        else raise AssertionError)) ∧
  (∀ n,
     let overlap := ceil_half n in
     let hop := n - overlap in
     overlap = (n + 1) / 2 ∧ hop = n / 2 ∧ hop ≤ overlap ∧ overlap ≤ n ∧
     (∀ x, 2 ≤ n ∨ length x ≤ n ->
           stitched hop (cola_chunks n overlap (S (length x)) x) = x) ∧
     (2 ≤ n -> ∀ i, i < hop ->
        (crossfade n overlap i + crossfade n overlap (i + hop)
         + crossfade n overlap (i + 2 * hop) = 1)%Qc ∧
        ∀ k, 3 ≤ k -> crossfade n overlap (i + k * hop) = 0%Qc)).
Proof.
  split; [|split].
  - intros x sf lf nw get. unfold Filter._mt_remove_win.
    destruct (get None) as [l [e|[wf thr]]]; [done|].
    unfold mbind, M_bind, bind. cbv beta iota.
    by rewrite ceil_half_spec.
  - intros self x. unfold MtFilter.__call__.
    destruct (MtFilter.get_thresh self None) as [l [e|[wf thr]]]; [done|].
    unfold mbind, M_bind, bind. cbv beta iota.
    by rewrite ceil_half_spec.
  - intros n overlap hop. unfold hop, overlap. rewrite ceil_half_spec.
    destruct (overlap_of_hop n) as (Hh & Hle & HL). unfold overlap_of in *.
    split; [done|]. split; [done|]. split; [done|]. split; [done|]. split.
    + intros x Hx. apply stitched_cola_chunks; [done|lia|].
      destruct Hx as [Hn|Hx]; [left|by right].
      rewrite Hh. by apply Nat.div_le_lower_bound.
    + intros Hn i Hi. apply crossfade_sum; [lia| |done].
      pose proof (Nat.div_mod_eq (n + 1) 2).
      pose proof (Nat.div_mod_eq n 2).
      pose proof (Nat.mod_upper_bound (n + 1) 2).
      pose proof (Nat.mod_upper_bound n 2). lia.
Qed.

Lemma overlap_is_ceil_half_witness :
  ceil_half 5 = 3 ∧
  stitched (5 - ceil_half 5)
    (cola_chunks 5 (ceil_half 5) 8 (qz <$> [1; 2; 3; 4; 5; 6; 7]%Z)) =
    qz <$> [1; 2; 3; 4; 5; 6; 7]%Z ∧
  (crossfade 5 (ceil_half 5) 1
   + crossfade 5 (ceil_half 5) (1 + (5 - ceil_half 5))
   + crossfade 5 (ceil_half 5) (1 + 2 * (5 - ceil_half 5)) = 1)%Qc.
Proof.
  destruct (@overlap_is_ceil_half (demo_lib [])) as (_ & _ & Hn).
  destruct (Hn 5) as (_ & _ & _ & _ & Hcover & Hfade).
  split; [by vm_compute|]. split.
  - assert (2 ≤ 5 ∨ length (qz <$> [1; 2; 3; 4; 5; 6; 7]%Z) ≤ 5) as Hx
      by (left; lia).
    exact (Hcover _ Hx).
  - assert (2 ≤ 5) as H5 by lia.
    assert (1 < 5 - ceil_half 5) as H1 by (by vm_compute).
    exact (proj1 (Hfade H5 1 H1)).
Defined.

(** ** Validation of the notch widths (C7, C10) *)

Lemma np_scalar_mul_float_ones (w : Qc) (a : ndarray1) :
  np_scalar_mul (NFloat w) (np_ones_like a) = FloatArr (replicate (arr_len a) w).
Proof.
  unfold arr_len. destruct a as [l|l]; cbn; f_equal;
    induction l as [|v l IH]; cbn; f_equal; try done.
  - apply Qcmult_of_Z_1.
  - ring.
Qed.

Lemma np_scalar_mul_int_ones (z : Z) (zs : list Z) :
  np_scalar_mul (NInt z) (np_ones_like (IntArr zs)) =
  IntArr (replicate (length zs) z).
Proof.
  cbn. f_equal. induction zs as [|v l IH]; cbn; f_equal; [lia|done].
Qed.

Lemma np_scalar_mul_items (s : npnum) (a : ndarray1) :
  arr_len (np_scalar_mul s (np_ones_like a)) = arr_len a ∧
  Forall (fun w => to_float w = to_float s)
         (arr_items (np_scalar_mul s (np_ones_like a))).
Proof.
  unfold arr_len.
  destruct s as [z|w], a as [l|l]; cbn; rewrite ?length_fmap; split; try done;
    induction l as [|v l IH]; cbn; constructor; try done; cbn.
  - f_equal. lia.
  - rewrite Qc_of_Z_1 || idtac. ring.
  - apply Qcmult_of_Z_1.
  - ring.
Qed.

Lemma all_ints_length (l : list npnum) (zs : list Z) :
  all_ints l = Some zs -> length zs = length l.
Proof.
  revert zs. induction l as [|[z|q] l IH]; intros zs; cbn.
  - by intros [= <-].
  - destruct (all_ints l) as [zs'|]; cbn; [|done].
    intros [= <-]. cbn. f_equal. by apply IH.
  - done.
Qed.

Lemma np_array_len (l : list npnum) : arr_len (np_array l) = length l.
Proof.
  unfold np_array, arr_len. destruct l as [|n l]; [done|].
  destruct (all_ints (n :: l)) as [zs|] eqn:Hz; cbn -[all_ints];
    rewrite ?length_fmap; [|done].
  by apply all_ints_length in Hz.
Qed.

Lemma np_atleast_1d_len (freqs : pyarg) :
  freqs ≠ PyNone ->
  ∃ fa, np_atleast_1d freqs = ret fa ∧ arr_len fa = target_count freqs.
Proof.
  destruct freqs as [|[z|q]|l|a]; intros Hne; [done|..]; cbn; eauto.
  exists (np_array l). split; [done|]. apply np_array_len.
Qed.

Lemma notch_setup_silent (freqs widths : pyarg) : (notch_setup freqs widths).1 = [].
Proof.
  unfold notch_setup.
  destruct freqs as [|[z|q]|l|a]; cbn; try done;
    destruct widths as [|n|l'|a']; cbn; try done; msimpl; cbn;
    repeat match goal with
           | |- context [np_negative ?n] => destruct (np_negative n); cbn; try done
           | |- context [existsb ?f ?l] => destruct (existsb f l); cbn; try done
           | |- context [match ?n with NInt _ => _ | NFloat _ => _ end] =>
               destruct n; cbn; try done
           | |- context [match arr_items ?n with [] => _ | _ :: _ => _ end] =>
               destruct (arr_items n) as [|? [|? ?]]; cbn; try done
           | |- context [decide ?P] => destruct (decide P); cbn; try done
           end.
Qed.

Lemma notch_setup_given (freqs widths : pyarg) (fa : ndarray1) :
  np_atleast_1d freqs = ret fa -> widths ≠ PyNone ->
  notch_setup freqs widths =
    (negative ← np_any_negative widths;
     if (negative : bool) then raise (ValueError "notch_widths must be >= 0")
     else
       ws ← np_atleast_1d widths;
       match arr_items ws with
       | [w] => ret (PyArr fa, PyArr (np_scalar_mul w (np_ones_like fa)))
       | _ =>
         if decide (arr_len ws ≠ arr_len fa)
         then raise (ValueError
           "notch_widths must be None, scalar, or the same length as freqs")
         else ret (PyArr fa, PyArr ws)
       end).
Proof.
  intros Hfa Hw. unfold notch_setup.
  destruct freqs as [|n|l|a]; [done|..];
    cbv beta iota; rewrite Hfa; msimpl; by destruct widths.
Qed.

Lemma notch_setup_scalar (freqs : pyarg) (fa : ndarray1) (s : npnum) :
  np_atleast_1d freqs = ret fa -> np_negative s = false ->
  notch_setup freqs (PyNum s) =
    ret (PyArr fa, PyArr (np_scalar_mul s (np_ones_like fa))).
Proof.
  intros Hfa Hs. rewrite (notch_setup_given _ _ fa) by done.
  cbn. msimpl. rewrite Hs. by destruct s; cbn; msimpl.
Qed.


Lemma notch_setup_negative (freqs widths : pyarg) :
  freqs ≠ PyNone -> has_negative widths = true ->
  ∃ e, notch_setup freqs widths = raise e.
Proof.
  intros Hf Hn. destruct (np_atleast_1d_len freqs Hf) as (fa & Hfa & _).
  assert (widths ≠ PyNone) by (by destruct widths).
  rewrite (notch_setup_given _ _ fa) by done.
  destruct widths as [|s|l|a]; cbn in *; [done|..]; msimpl;
    rewrite ?Hn; eauto.
Qed.

Lemma notch_setup_mismatch (freqs widths : pyarg) (n : nat) :
  freqs ≠ PyNone -> width_count widths = Some n ->
  n ≠ 1 -> n ≠ target_count freqs ->
  ∃ e, notch_setup freqs widths = raise e.
Proof.
  intros Hf Hc H1 Hn. destruct (np_atleast_1d_len freqs Hf) as (fa & Hfa & Hlen).
  assert (widths ≠ PyNone) by (by destruct widths).
  rewrite (notch_setup_given _ _ fa) by done.
  destruct widths as [|s|l|a]; cbn in *; [done..| |]; msimpl; [by eauto|].
  injection Hc as <-.
  destruct (existsb np_negative (arr_items a)); [by eauto|]. msimpl.
  unfold arr_len in *.
  destruct (arr_items a) as [|w [|w' ws]] eqn:Ha; [|done|];
    (destruct (decide _) as [|Hd]; [by eauto|]);
    exfalso; apply Hd; cbn in *; congruence.
Qed.


(** C10, as written, fails: a scalar width of one half over the integer
    targets 60 and 120 stays one half for both; it does not become 0. *)
Lemma fractional_width_is_kept :
  notch_setup (PySeq [NInt 60; NInt 120]) (PyNum (NFloat (Q2Qc (1 # 2)))) =
    ret (PyArr (IntArr [60; 120]%Z),
         PyArr (FloatArr [Q2Qc (1 # 2); Q2Qc (1 # 2)])) ∧
  [Q2Qc (1 # 2); Q2Qc (1 # 2)] ≠ [0%Qc; 0%Qc].
Proof. split; compute_done. Qed.

(** C10, amended: the broadcast widths are
    [notch_widths[0] * np.ones_like(freqs)]; [ones_like] has the integer
    dtype of the targets, and the product takes the dtype of the two
    operands together: a float width gives a float array holding the
    width itself for every target, nothing is truncated; an integer
    width gives an integer array. *)
Theorem scalar_width_broadcast (zs : list Z) (w : Qc) (z : Z) :
  ¬ (w < 0)%Qc -> ¬ (z < 0)%Z ->
  notch_setup (PyArr (IntArr zs)) (PyNum (NFloat w)) =
    ret (PyArr (IntArr zs), PyArr (FloatArr (replicate (length zs) w))) ∧
  notch_setup (PyArr (IntArr zs)) (PyNum (NInt z)) =
    ret (PyArr (IntArr zs), PyArr (IntArr (replicate (length zs) z))).
Proof.
  intros Hw Hz. split.
  - rewrite (notch_setup_scalar _ (IntArr zs)); [|done|by apply bool_decide_eq_false].
    rewrite np_scalar_mul_float_ones. unfold arr_len. cbn.
    by rewrite length_fmap.
  - rewrite (notch_setup_scalar _ (IntArr zs)); [|done|by apply bool_decide_eq_false].
    by rewrite np_scalar_mul_int_ones.
Qed.

Lemma scalar_width_broadcast_witness :
  notch_setup (PyArr (IntArr [60; 120]%Z)) (PyNum (NFloat (Q2Qc (1 # 2)))) =
    ret (PyArr (IntArr [60; 120]%Z),
         PyArr (FloatArr (replicate 2 (Q2Qc (1 # 2))))) ∧
  notch_setup (PyArr (IntArr [60; 120]%Z)) (PyNum (NInt 20)) =
    ret (PyArr (IntArr [60; 120]%Z), PyArr (IntArr (replicate 2 20%Z))).
Proof.
  apply (scalar_width_broadcast [60; 120]%Z (Q2Qc (1 # 2)) 20%Z).
  - vm_compute. intros H. discriminate H.
  - lia.
Defined.




(** A Python list or tuple of widths never gets as far as the length
    check: [notch_widths < 0] compares a list with a number, which is a
    [TypeError], whatever the length and the sign of the widths. *)
Lemma list_widths_raise_TypeError (freqs : pyarg) (l : list npnum) :
  freqs ≠ PyNone -> notch_setup freqs (PySeq l) = raise TypeError.
Proof.
  intros Hf. destruct (np_atleast_1d_len freqs Hf) as (fa & Hfa & _).
  rewrite (notch_setup_given _ _ fa) by done. done.
Qed.



(** ** The threshold of a chunk (C1) and its recomputation (C8) *)

Section Threshold.
Context `{NumLib}.

Lemma py_div_ok (p : Qc) (n : nat) :
  n ≠ 0 -> py_div p n = ret (p / Qc_of_Z (Z.of_nat n))%Qc.
Proof. intros Hn. unfold py_div. by rewrite decide_False. Qed.

(** In [filter.py] the threshold of a chunk of [n] samples is the
    quantile the document describes, at the caller's p-value. *)
Lemma Filter_threshold_is_quantile fs bw p lb ad flen n wf :
  mt_params n fs bw lb ad = inr wf -> n ≠ 0 ->
  Filter.get_window_thresh fs bw p lb ad flen (Some n) =
    ret (wf, spec_threshold p n (taper_count wf)).
Proof.
  intros Hwf Hn. unfold Filter.get_window_thresh. cbn [from_option id].
  rewrite Hwf. msimpl. rewrite py_div_ok by done. by msimpl.
Qed.

Lemma Filter_mt_remove_same_length x sf lf nw wf thr get :
  length x = taper_len wf ->
  Filter._mt_remove x sf lf nw wf thr get = remove_lines x sf lf nw wf thr.
Proof.
  intros Hlen. unfold Filter._mt_remove.
  rewrite decide_False by (by intros ?). by msimpl.
Qed.

(** In [filter.py] a chunk whose length is not that of the default taper
    set is processed with the taper set and threshold [get_thresh] gives
    for its own length. *)
Lemma Filter_mt_remove_recomputes x sf lf nw wf0 thr0 get wf thr :
  length x ≠ taper_len wf0 ->
  get (Some (length x)) = ret (wf, thr) ->
  Filter._mt_remove x sf lf nw wf0 thr0 get = remove_lines x sf lf nw wf thr.
Proof.
  intros Hlen Hget. unfold Filter._mt_remove.
  rewrite decide_True by done. rewrite Hget. by msimpl.
Qed.

Lemma MtFilter_mt_remove_same_length x sf lf nw wf thr get :
  length x = taper_len wf ->
  MtFilter._mt_remove x sf lf nw wf thr get = remove_lines x sf lf nw wf thr.
Proof.
  intros Hlen. unfold MtFilter._mt_remove.
  rewrite decide_False by (by intros ?). by msimpl.
Qed.

(** C1: in [mt_filter.py] the remover is built with [p_value] in the
    place of [bandwidth] and [mt_bandwidth] in the place of [p_value]
    (and [adaptive], [low_bias] exchanged), so the threshold of a chunk
    is the quantile at level [1 - mt_bandwidth / n], from tapers computed
    with the p-value as their bandwidth. *)
Theorem MtFilter_threshold_uses_bandwidth
    fs freqs widths flen ad lb p b n wf :
  mt_params n fs (Some p) ad lb = inr wf -> n ≠ 0 ->
  MtFilter.get_thresh
    (MtFilter.line_filter_process fs freqs widths flen ad lb p (Some b))
    (Some n) =
    ret (wf, spec_threshold b n (taper_count wf)).
Proof.
  intros Hwf Hn. unfold MtFilter.get_thresh. cbn [from_option id
    MtFilter.line_filter_process MtFilter.__init__ MtFilter.sfreq
    MtFilter.bandwidth MtFilter.low_bias MtFilter.adaptive MtFilter.p_value].
  rewrite Hwf. msimpl. rewrite py_div_ok by done. by msimpl.
Qed.

(** With [mt_bandwidth] left at its default [None], computing the
    threshold raises. *)
Lemma MtFilter_threshold_default_bandwidth
    fs freqs widths flen ad lb p n wf :
  mt_params n fs (Some p) ad lb = inr wf ->
  MtFilter.get_thresh
    (MtFilter.line_filter_process fs freqs widths flen ad lb p None)
    (Some n) = raise TypeError.
Proof.
  intros Hwf. unfold MtFilter.get_thresh. cbn [from_option id
    MtFilter.line_filter_process MtFilter.__init__ MtFilter.sfreq
    MtFilter.bandwidth MtFilter.low_bias MtFilter.adaptive MtFilter.p_value].
  rewrite Hwf. by msimpl.
Qed.

(** C8: in [mt_filter.py] a chunk whose length is not that of the
    default taper set cannot be processed: [get_thresh] is the bound
    method [self.get_thresh], which has no attribute [func]. *)
Theorem MtFilter_short_chunk_raises x sf lf nw wf0 thr0 self :
  length x ≠ taper_len wf0 ->
  MtFilter._mt_remove x sf lf nw wf0 thr0 (MtFilter.BoundMethod self) =
    raise AttributeError.
Proof.
  intros Hlen. unfold MtFilter._mt_remove.
  rewrite decide_True by done. cbn [MtFilter.attr_func]. by msimpl.
Qed.

End Threshold.

(** The call of [main]: [line_filter(raw, mt_bandwidth=10.,
    filter_length='700ms', freqs=[60], notch_widths=20)], p-value left at
    0.05, on the chunk length 700. *)
Lemma MtFilter_threshold_uses_bandwidth_witness :
  @MtFilter.get_thresh (demo_lib [])
    (MtFilter.line_filter_process (qz 1000) (PyArr (IntArr [60%Z]))
       (PyArr (IntArr [20%Z])) 700 true true (Q2Qc (1 # 20)) (Some (qz 10)))
    (Some 700) =
    ret ((4, 700), @spec_threshold (demo_lib []) (qz 10) 700 4).
Proof.
  apply (@MtFilter_threshold_uses_bandwidth (demo_lib [])); [reflexivity|lia].
Defined.

Lemma MtFilter_threshold_differs_from_quantile :
  @spec_threshold (demo_lib []) (qz 10) 700 4 ≠
  @spec_threshold (demo_lib []) (Q2Qc (1 # 20)) 700 4.
Proof. compute_done. Qed.

Lemma MtFilter_short_chunk_raises_witness :
  @MtFilter._mt_remove (demo_lib [qz 60]) (qz <$> [1; 2; 3]%Z) (qz 1000)
     PyNone PyNone (4, 10) 1%Qc
     (MtFilter.BoundMethod
        (MtFilter.line_filter_process (qz 1000) PyNone PyNone 10 true true
           (Q2Qc (1 # 20)) (Some (qz 10)))) =
    raise AttributeError.
Proof.
  apply (@MtFilter_short_chunk_raises (demo_lib [qz 60])). cbn. lia.
Defined.

(** ** Detection and removal in one chunk (C2, C4) *)

Lemma mapM_ret {A B} (f : A -> M B) (g : A -> B) (l : list A) :
  (∀ a, a ∈ l -> f a = ret (g a)) -> mapM f l = ret (g <$> l).
Proof.
  induction l as [|a l IH]; intros Hf; cbn [mapM]; [done|].
  rewrite Hf by left. msimpl. rewrite IH; [by msimpl|].
  intros b Hb. apply Hf. by right.
Qed.

Lemma py_index_ok {A} (l : list A) (i : nat) (a : A) :
  l !! i = Some a -> py_index l i = ret a.
Proof. unfold py_index. by intros ->. Qed.

Lemma py_index_default (l : list Qc) (i : nat) :
  i < length l -> py_index l i = ret (default 0%Qc (l !! i)).
Proof.
  intros Hi. destruct (lookup_lt_is_Some_2 l i Hi) as [a Ha].
  rewrite Ha. by apply py_index_ok.
Qed.

Lemma elem_of_where_from (i j : nat) (f_stat : list Qc) (thr : Qc) :
  j ∈ where_from i f_stat thr ↔
  i ≤ j ∧ ∃ v, f_stat !! (j - i) = Some v ∧ (thr < v)%Qc.
Proof.
  revert i. induction f_stat as [|u f IH]; intros i; cbn [where_from].
  - split; [by intros ?%elem_of_nil|]. by intros (_ & v & Hv & _).
  - assert (∀ P : Prop, (j ∈ where_from (S i) f thr ∨ P) ↔
       (S i ≤ j ∧ ∃ v, f !! (j - S i) = Some v ∧ (thr < v)%Qc) ∨ P) as Hrec.
    { intros P. by rewrite IH. }
    destruct (decide (thr < u)%Qc) as [Hu|Hu].
    + rewrite elem_of_cons, (comm (∨)), Hrec. split.
      * intros [(Hle & v & Hv & Hlt)| ->].
        -- split; [lia|]. exists v. split; [|done].
           replace (j - i) with (S (j - S i)) by lia. done.
        -- split; [done|]. exists u. by rewrite Nat.sub_diag.
      * intros (Hle & v & Hv & Hlt). destruct (decide (j = i)) as [->|Hne].
        -- by right.
        -- left. split; [lia|]. exists v. split; [|done].
           replace (j - i) with (S (j - S i)) in Hv by lia. done.
    + rewrite IH. split.
      * intros (Hle & v & Hv & Hlt). split; [lia|]. exists v. split; [|done].
        replace (j - i) with (S (j - S i)) by lia. done.
      * intros (Hle & v & Hv & Hlt). destruct (decide (j = i)) as [->|Hne].
        -- rewrite Nat.sub_diag in Hv. injection Hv as ->. done.
        -- split; [lia|]. exists v. split; [|done].
           replace (j - i) with (S (j - S i)) in Hv by lia. done.
Qed.

(** The bins above the threshold. *)
Lemma elem_of_np_where_gt (j : nat) (f_stat : list Qc) (thr : Qc) :
  j ∈ np_where_gt f_stat thr ↔ ∃ v, f_stat !! j = Some v ∧ (thr < v)%Qc.
Proof.
  unfold np_where_gt. rewrite elem_of_where_from, Nat.sub_0_r.
  split; [by intros [_ ?]|]. intros ?. split; [lia|done].
Qed.

Lemma np_where_gt_bound (j : nat) (f_stat : list Qc) (thr : Qc) :
  j ∈ np_where_gt f_stat thr -> j < length f_stat.
Proof.
  rewrite elem_of_np_where_gt. intros (v & Hv & _). by eapply lookup_lt_Some.
Qed.

Lemma keep_in_ranges_filter ranges freqs indices :
  (∀ i, i ∈ indices -> i < length freqs) ->
  keep_in_ranges ranges freqs indices =
    ret (List.filter (fun i => in_ranges ranges (default 0%Qc (freqs !! i)))
                     indices).
Proof.
  induction indices as [|i l IH]; intros Hb; cbn [keep_in_ranges List.filter];
    [done|].
  rewrite IH by (intros j Hj; apply Hb; by right).
  destruct ranges as [|r ranges].
  - msimpl. done.
  - rewrite py_index_default by (apply Hb; left). msimpl. done.
Qed.

Lemma Qc_of_Z_2 : Qc_of_Z 2 = 2%Qc.
Proof. by apply Qc_is_canon. Qed.

Lemma in_ranges_spec (lf nw : list npnum) (f : Qc) :
  in_ranges (notch_ranges lf nw) f = true ↔
  ∃ k freq width, lf !! k = Some freq ∧ nw !! k = Some width ∧
                  in_notch (to_float freq) (to_float width) f.
Proof.
  unfold in_ranges, notch_ranges. rewrite existsb_exists. split.
  - intros ([lo hi] & Hin & Hr). apply list_elem_of_In in Hin.
    apply list_elem_of_lookup in Hin as [k Hk].
    apply lookup_zip_with_Some in Hk as (freq & width & Heq & Hf & Hw).
    injection Heq as -> ->. exists k, freq, width. split; [done|]. split; [done|].
    apply andb_prop in Hr as [H1 H2].
    apply bool_decide_eq_true in H1, H2. cbn in H1, H2.
    unfold np_truediv in *. cbn [to_float] in *. rewrite Qc_of_Z_2 in *.
    by split.
  - intros (k & freq & width & Hf & Hw & [H1 H2]).
    exists ((to_float freq - np_truediv width (NInt 2))%Qc,
            (to_float freq + np_truediv width (NInt 2))%Qc). split.
    + apply list_elem_of_In, list_elem_of_lookup. exists k.
      apply lookup_zip_with_Some. by exists freq, width.
    + unfold np_truediv. cbn [to_float fst snd]. rewrite Qc_of_Z_2.
      apply andb_true_intro. by split; apply bool_decide_eq_true.
Qed.

Lemma notch_setup_validated (freqs widths lf nw : pyarg) :
  notch_setup freqs widths = ret (lf, nw) -> validated lf nw.
Proof.
  destruct (decide (freqs = PyNone)) as [->|Hf].
  { cbn. intros [= <- <-]. by left. }
  destruct (np_atleast_1d_len freqs Hf) as (fa & Hfa & Hlen).
  destruct (decide (widths = PyNone)) as [->|Hw].
  - unfold notch_setup. destruct freqs; [done|..]; cbv beta iota;
      rewrite Hfa; msimpl; intros [= <- <-]; right;
      exists fa, (np_div_float fa (Qc_of_Z 200)); (split; [done|]);
      (split; [done|]); unfold arr_len, np_div_float; cbn;
      by rewrite !length_fmap.
  - rewrite (notch_setup_given _ _ fa) by done.
    intros Hret. right. exists fa.
    apply bind_inr_inv in Hret as (l1 & neg & l2 & _ & Hret & _).
    destruct neg; [done|].
    apply bind_inr_inv in Hret as (l3 & ws & l4 & _ & Hret & _).
    destruct (arr_items ws) as [|w [|w' ws']] eqn:Hws.
    + destruct (decide _) as [|Hd]; [done|]. injection Hret as _ <- <-.
      exists ws. repeat split; try done. by apply dec_stable.
    + injection Hret as _ <- <-. eexists. repeat split; try done.
      apply np_scalar_mul_items.
    + destruct (decide _) as [|Hd]; [done|]. injection Hret as _ <- <-.
      exists ws. repeat split; try done. by apply dec_stable.
Qed.

Lemma restrict_indices_selected (lf nw : pyarg) (freqs f_stat : list Qc) thr :
  validated lf nw -> length freqs = length f_stat ->
  restrict_indices lf nw freqs (np_where_gt f_stat thr) =
    ret (selected_bins lf nw freqs f_stat thr).
Proof.
  intros [->|(fa & wa & -> & -> & Hlen)] Hbins; [done|].
  unfold restrict_indices, selected_bins. cbn [py_items]. msimpl.
  apply keep_in_ranges_filter. intros i Hi. rewrite Hbins.
  by eapply np_where_gt_bound.
Qed.

Lemma selected_bins_subset (lf nw : pyarg) (freqs f_stat : list Qc) thr i :
  i ∈ selected_bins lf nw freqs f_stat thr -> i ∈ np_where_gt f_stat thr.
Proof.
  unfold selected_bins. destruct lf as [| | |fa]; try done.
  destruct nw as [| | |wa]; try done.
  rewrite !list_elem_of_In, filter_In. by intros [? _].
Qed.

Section Removal.
Context `{NumLib}.

Lemma sinusoid_as_seq (sf : Qc) (n : nat) (f : Qc) (c : complex) :
  sinusoid sf n f c =
    (fun t => (np_abs c *
               np_cos (f * (2 * np_pi * (Qc_of_Z (Z.of_nat t) / sf))
                       + np_angle c))%Qc) <$> seq 0 n.
Proof. unfold sinusoid, rads. by rewrite <- list_fmap_compose. Qed.

Lemma np_sum_axis0_seq (n : nat) (h : nat -> nat -> Qc) (idxs : list nat) :
  np_sum_axis0 n ((fun i => h i <$> seq 0 n) <$> idxs) =
    (fun t => foldr (fun i acc => (h i t + acc)%Qc) 0%Qc idxs) <$> seq 0 n.
Proof.
  unfold np_sum_axis0. induction idxs as [|i l IH]; cbn [fmap list_fmap foldr].
  - generalize 0%nat. induction n as [|n IHn]; intros j; cbn; [done|].
    by rewrite <- IHn.
  - rewrite IH. rewrite zip_with_fmap_l, zip_with_fmap_r, zip_with_diag. done.
Qed.

Lemma zip_minus_seq (x : list Qc) (h : nat -> Qc) :
  zip_with Qcminus x (h <$> seq 0 (length x)) =
    imap (fun t v => (v - h t)%Qc) x.
Proof.
  revert h. induction x as [|v x IH]; intros h; [done|].
  cbn [length seq fmap list_fmap zip_with imap]. f_equal.
  rewrite <- fmap_S_seq, <- list_fmap_compose. by rewrite IH.
Qed.

Lemma np_sub_fits (sf : Qc) (freqs : list Qc) (A : list complex)
    (idxs : list nat) (x : list Qc) :
  let fits := (fun ind =>
                 sinusoid sf (length x) (default 0%Qc (freqs !! ind))
                          (cscale 2 (default czero (A !! ind))))
              <$> idxs in
  np_sub x (match fits with
            | [] => Scalar 0
            | _ => Arr (np_sum_axis0 (length x) fits)
            end) = spec_cleaned sf freqs A idxs x.
Proof.
  intros fits. unfold spec_cleaned.
  destruct idxs as [|i idxs].
  - cbn. rewrite <- (imap_const (fun v => (v - 0)%Qc)). done.
  - assert (np_sub x (Arr (np_sum_axis0 (length x) fits)) =
            imap (fun t v => (v - spec_fit sf freqs A (i :: idxs) t)%Qc) x)
      as Hgoal; [|exact Hgoal].
    unfold fits. cbn [np_sub].
    erewrite (list_fmap_ext _ _ (i :: idxs)); last first.
    { intros k ind _. apply sinusoid_as_seq. }
    rewrite (np_sum_axis0_seq (length x)
      (fun ind t =>
         let c := cscale 2 (default czero (A !! ind)) in
         (np_abs c *
          np_cos (default 0%Qc (freqs !! ind)
                  * (2 * np_pi * (Qc_of_Z (Z.of_nat t) / sf)) + np_angle c))%Qc)).
    rewrite zip_minus_seq. apply imap_ext. intros t v _. cbn beta. f_equal.
    unfold spec_fit. generalize (i :: idxs). intros l.
    induction l as [|ind l IHl]; cbn [foldr]; [done|].
    rewrite IHl. cbn zeta. f_equal. f_equal. f_equal. f_equal. ring.
Qed.

(** What [remove_lines] returns, given the bins [restrict_indices]
    selects. *)
Lemma remove_lines_result x sf lf nw wf thr idxs :
  let freqs := (mt_spectra x wf sf).2 in
  let f_stat := (sine_f_test wf (mt_spectra x wf sf).1).1 in
  let A := (sine_f_test wf (mt_spectra x wf sf).1).2 in
  restrict_indices lf nw freqs (np_where_gt f_stat thr) = ret idxs ->
  (∀ i, i ∈ idxs -> i < length freqs ∧ i < length A) ->
  remove_lines x sf lf nw wf thr =
    ret (spec_cleaned sf freqs A idxs x,
         (fun i => default 0%Qc (freqs !! i)) <$> idxs).
Proof.
  unfold remove_lines.
  destruct (mt_spectra x wf sf) as [x_p freqs]. cbn [fst snd].
  destruct (sine_f_test wf x_p) as [f_stat A]. cbn [fst snd].
  intros Hr Hb. rewrite Hr. msimpl.
  rewrite (mapM_ret _ (fun ind =>
             sinusoid sf (length x) (default 0%Qc (freqs !! ind))
                      (cscale 2 (default czero (A !! ind))))).
  2:{ intros i Hi. destruct (Hb i Hi) as [Hf Ha].
      destruct (lookup_lt_is_Some_2 A i Ha) as [a Hai].
      rewrite (py_index_ok A i a) by done. msimpl.
      rewrite py_index_default by done. msimpl. by rewrite Hai. }
  msimpl.
  rewrite (mapM_ret _ (fun i => default 0%Qc (freqs !! i))).
  2:{ intros i Hi. apply py_index_default. by apply Hb. }
  msimpl. unfold ret. do 3 f_equal. apply np_sub_fits.
Qed.

End Removal.

Section Remover.
Context `{NumLib}.

Lemma Filter_mt_remove_settled x sf lf nw wf0 thr0 get wf thr :
  settled x wf0 thr0 get wf thr ->
  Filter._mt_remove x sf lf nw wf0 thr0 get = remove_lines x sf lf nw wf thr.
Proof.
  intros [(Hlen & -> & ->)|(Hlen & Hget)].
  - by apply Filter_mt_remove_same_length.
  - by apply Filter_mt_remove_recomputes.
Qed.

Lemma spec_cleaned_nil sf freqs A x : spec_cleaned sf freqs A [] x = x.
Proof.
  unfold spec_cleaned. cbn.
  rewrite (imap_ext _ (fun _ v => v) x).
  - induction x as [|v x IH]; cbn; [done|]. f_equal. exact IH.
  - intros i v _. cbn. ring.
Qed.

Lemma remove_lines_selected x sf lf nw wf thr :
  let freqs := (mt_spectra x wf sf).2 in
  let f_stat := (sine_f_test wf (mt_spectra x wf sf).1).1 in
  let A := (sine_f_test wf (mt_spectra x wf sf).1).2 in
  let bins := selected_bins lf nw freqs f_stat thr in
  validated lf nw ->
  length freqs = length f_stat -> length A = length f_stat ->
  remove_lines x sf lf nw wf thr =
    ret (spec_cleaned sf freqs A bins x,
         (fun i => default 0%Qc (freqs !! i)) <$> bins).
Proof.
  intros freqs f_stat A bins Hv Hf HA.
  apply remove_lines_result.
  - by apply restrict_indices_selected.
  - intros i Hi%selected_bins_subset%np_where_gt_bound.
    unfold freqs, f_stat, A in *. lia.
Qed.

End Remover.

Lemma removers_run_remove_lines `{NumLib} x sf lf nw wf thr R :
  remove_lines x sf lf nw wf thr = ret R -> removers_return x sf lf nw wf thr R.
Proof.
  intros Hr. split.
  - intros wf0 thr0 get Hs.
    by rewrite (Filter_mt_remove_settled _ _ _ _ _ _ _ wf thr).
  - intros get Hlen. by rewrite MtFilter_mt_remove_same_length.
Qed.

(** C4: with target frequencies [fa] and widths [wa], the bins removed
    from a chunk are the bins above the threshold, filtered afterwards
    by the ranges: a bin is removed exactly when its F statistic exceeds
    the threshold and its frequency lies in
    [freq - width/2, freq + width/2] for some target; without target
    frequencies every bin above the threshold is removed. *)
Theorem targeted_bins_are_hits_in_range `{NumLib}
    (x : list Qc) (sf : Qc) (fa wa : ndarray1) (nw0 : pyarg)
    (wf : tapers) (thr : Qc) :
  let freqs := (mt_spectra x wf sf).2 in
  let f_stat := (sine_f_test wf (mt_spectra x wf sf).1).1 in
  let A := (sine_f_test wf (mt_spectra x wf sf).1).2 in
  let hits := np_where_gt f_stat thr in
  let bins := selected_bins (PyArr fa) (PyArr wa) freqs f_stat thr in
  let freq_of := fun i => default 0%Qc (freqs !! i) in
  arr_len wa = arr_len fa ->
  length freqs = length f_stat -> length A = length f_stat ->
  removers_return x sf (PyArr fa) (PyArr wa) wf thr
    (spec_cleaned sf freqs A bins x, freq_of <$> bins) ∧
  bins = List.filter
           (fun i => in_ranges (notch_ranges (arr_items fa) (arr_items wa))
                               (freq_of i)) hits ∧
  (∀ i, i ∈ bins ↔
        (∃ v, f_stat !! i = Some v ∧ (thr < v)%Qc) ∧
        ∃ f k freq width,
          freqs !! i = Some f ∧ arr_items fa !! k = Some freq ∧
          arr_items wa !! k = Some width ∧
          in_notch (to_float freq) (to_float width) f) ∧
  removers_return x sf PyNone nw0 wf thr
    (spec_cleaned sf freqs A hits x, freq_of <$> hits) ∧
  (∀ i, i ∈ hits ↔ ∃ v, f_stat !! i = Some v ∧ (thr < v)%Qc).
Proof.
  intros freqs f_stat A hits bins freq_of Hlen Hf HA.
  split; [|split; [|split; [|split]]].
  - apply removers_run_remove_lines.
    apply (remove_lines_selected x sf (PyArr fa) (PyArr wa) wf thr); [|done..].
    right. by exists fa, wa.
  - done.
  - intros i. unfold bins, selected_bins.
    rewrite list_elem_of_In, filter_In, <- list_elem_of_In.
    fold hits. unfold hits at 1. rewrite elem_of_np_where_gt, in_ranges_spec.
    split.
    + intros [(v & Hv & Hthr) (k & freq & width & Hk & Hw & Hin)].
      split; [by exists v|].
      assert (i < length freqs) as Hi.
      { rewrite Hf. by eapply lookup_lt_Some. }
      destruct (lookup_lt_is_Some_2 _ _ Hi) as [f Hfi].
      rewrite Hfi in Hin. by exists f, k, freq, width.
    + intros [Hv (f & k & freq & width & Hfi & Hk & Hw & Hin)].
      split; [done|]. exists k, freq, width. by rewrite Hfi.
  - apply removers_run_remove_lines.
    apply (remove_lines_selected x sf PyNone nw0 wf thr); [|done..].
    by left.
  - intros i. apply elem_of_np_where_gt.
Qed.

Lemma targeted_bins_are_hits_in_range_witness :
  let L := demo_lib [qz 0; qz 60; qz 120] in
  let x := qz <$> [5; 1; 2]%Z in
  @selected_bins (PyArr (IntArr [60%Z])) (PyArr (IntArr [10%Z]))
     (@mt_spectra L x (4, 3) (qz 1000)).2
     (@sine_f_test L (4, 3) (@mt_spectra L x (4, 3) (qz 1000)).1).1
     (Q2Qc (1 # 2)) = [1] ∧
  np_where_gt (@sine_f_test L (4, 3) (@mt_spectra L x (4, 3) (qz 1000)).1).1
     (Q2Qc (1 # 2)) = [0; 1; 2].
Proof.
  intros L x.
  destruct (@targeted_bins_are_hits_in_range L x (qz 1000) (IntArr [60%Z])
              (IntArr [10%Z]) PyNone (4, 3) (Q2Qc (1 # 2)))
    as (_ & Hb & _); [reflexivity..|].
  split; [|by vm_compute].
  rewrite Hb. by vm_compute.
Defined.

(** ** The overlap-add run of one channel (C9) *)

Lemma length_overlap_add (a b : list Qc) :
  length (overlap_add a b) = length a `max` length b.
Proof.
  revert b. induction a as [|u a IH]; intros [|v b]; cbn; try done.
  by rewrite IH.
Qed.

Lemma slice_iadd_fits (a : list Qc) (start : nat) (b : list Qc) :
  start + length b ≤ length a ->
  ∃ out, slice_iadd a start (start + length b) b = ret out ∧
         length out = length a.
Proof.
  intros Hfit. unfold slice_iadd.
  rewrite !Nat.min_l by lia.
  rewrite decide_True.
  - eexists. split; [done|].
    rewrite !length_app, length_zip_with, !length_take, !length_drop. lia.
  - rewrite length_take, length_drop. lia.
Qed.

Lemma store_fits (st : win_state) (seg : list Qc) :
  idx st + length seg ≤ length (x_out st) ->
  ∃ out, store st seg =
           ret (WinState out (rm_freqs st) (idx st + length seg)) ∧
         length out = length (x_out st).
Proof.
  intros Hfit. unfold store.
  destruct (slice_iadd_fits (x_out st) (idx st) seg Hfit) as (out & -> & Hlen).
  exists out. by msimpl.
Qed.

Lemma chunk_process_ret remove st c y f :
  remove c = ret (y, f) ->
  chunk_process remove st c =
    ret (y, WinState (x_out st) (rm_freqs st ++ [f]) (idx st)).
Proof. intros Hr. unfold chunk_process. rewrite Hr. by msimpl. Qed.

Section Cola.
Context `{NumLib}.

(** The run of the engine over the rest [buf] of a channel: if the
    remover succeeds on every chunk and keeps its length, every sample
    of [buf] is stored, once, and each chunk leaves one removal record. *)
Lemma cola_feed_run (remove : list Qc -> M (list Qc * list Qc))
    (g : list Qc -> list Qc * list Qc) (n_s n_o : nat) :
  ∀ fuel first pending buf st,
    (∀ c, c ∈ cola_chunks n_s n_o fuel buf ->
          remove c = ret (g c) ∧ length (g c).1 = length c) ->
    length buf < fuel ->
    (1 ≤ n_s - n_o ∨ length buf ≤ n_s) ->
    length pending ≤ n_s -> length pending ≤ length buf ->
    idx st + length buf ≤ length (x_out st) ->
    ∃ st', cola_feed (chunk_process remove) store n_s n_o fuel first
                     pending buf st = ret st' ∧
           idx st' = idx st + length buf ∧
           length (x_out st') = length (x_out st) ∧
           rm_freqs st' =
             rm_freqs st ++ ((fun c => (g c).2) <$> cola_chunks n_s n_o fuel buf).
Proof.
  induction fuel as [|fuel IH]; intros first pending buf st Hrem Hfuel Hstep
    Hpn Hpb Hfit; [lia|].
  cbn [cola_feed cola_chunks] in *.
  set (chunk := take n_s buf) in *.
  assert (length chunk = n_s `min` length buf) as Hchunk
    by (unfold chunk; by rewrite length_take).
  destruct (g chunk) as [y f] eqn:Hg.
  assert (remove chunk = ret (y, f) ∧ length y = length chunk) as [Hr Hy].
  { destruct (Hrem chunk) as [Hr Hy].
    - case_bool_decide; [by apply list_elem_of_singleton|by left].
    - by rewrite Hg in Hr, Hy. }
  rewrite (chunk_process_ret _ _ _ y f Hr). msimpl.
  set (acc := overlap_add pending _).
  assert (length acc = length chunk) as Hacc.
  { unfold acc. rewrite length_overlap_add, length_imap. lia. }
  case_bool_decide as Hlast.
  - destruct (store_fits (WinState (x_out st) (rm_freqs st ++ [f]) (idx st)) acc)
      as (out & Hs & Hout).
    { cbn. lia. }
    rewrite Hs. eexists. split; [done|]. cbn. rewrite Hg. cbn.
    repeat split; [lia|done].
  - assert (1 ≤ n_s - n_o) as Hpos by lia.
    set (step := n_s - n_o) in *.
    destruct (store_fits (WinState (x_out st) (rm_freqs st ++ [f]) (idx st))
                         (take step acc)) as (out & Hs & Hout).
    { cbn. rewrite length_take. lia. }
    rewrite Hs. msimpl. cbn [x_out rm_freqs idx] in *.
    destruct (IH false (drop step acc) (drop step buf)
                 (WinState out (rm_freqs st ++ [f])
                           (idx st + length (take step acc))))
      as (st' & Hrun & Hidx & Hlen & Hrm).
    + intros c Hc. apply Hrem. by right.
    + rewrite length_drop. lia.
    + by left.
    + rewrite length_drop. lia.
    + rewrite !length_drop. lia.
    + cbn. rewrite length_take, length_drop. lia.
    + exists st'. split; [done|]. cbn in *.
      rewrite length_take, length_drop in Hidx.
      repeat split; [lia|congruence|].
      rewrite Hrm, Hg. cbn. by rewrite <- app_assoc.
Qed.

Lemma COLA_run (remove : list Qc -> M (list Qc * list Qc))
    (g : list Qc -> list Qc * list Qc) (n_s : nat) (x : list Qc) :
  let chunks := cola_chunks n_s (overlap_of n_s) (S (length x)) x in
  (∀ c, c ∈ chunks -> remove c = ret (g c) ∧ length (g c).1 = length c) ->
  (2 ≤ n_s ∨ length x ≤ n_s) ->
  ∃ st', COLA (chunk_process remove) store (length x) n_s (overlap_of n_s) x
              (WinState (replicate (length x) 0%Qc) [] 0) = ret st' ∧
         idx st' = length x ∧
         length (x_out st') = length x ∧
         rm_freqs st' = (fun c => (g c).2) <$> chunks.
Proof.
  intros chunks Hrem Hn. unfold COLA.
  destruct (cola_feed_run remove g n_s (overlap_of n_s) (S (length x)) true []
              x (WinState (replicate (length x) 0%Qc) [] 0))
    as (st' & Hrun & Hidx & Hlen & Hrm); try done.
  - lia.
  - destruct Hn as [Hn|Hn]; [left|by right].
    destruct (overlap_of_hop n_s) as (Hhop & _).
    rewrite Hhop. by apply Nat.div_le_lower_bound.
  - cbn. lia.
  - cbn. lia.
  - cbn. by rewrite length_replicate.
  - exists st'. cbn in *. rewrite length_replicate in Hlen. done.
Qed.

End Cola.

(** Whatever the remover does, a run that returns leaves the output
    buffer at its length. *)
Lemma slice_iadd_length (a : list Qc) (start stop : nat) (b out : list Qc) l :
  start ≤ stop ->
  slice_iadd a start stop b = (l, inr out) -> length out = length a.
Proof.
  intros Hle. unfold slice_iadd.
  set (lo := start `min` length a). set (hi := stop `min` length a).
  assert (lo ≤ hi ∧ hi ≤ length a) as [Hlo Hhi] by (unfold lo, hi; lia).
  destruct (decide _) as [Hb|Hb].
  - intros [= _ <-]. rewrite length_take, length_drop in Hb.
    rewrite !length_app, length_zip_with, !length_take, !length_drop. lia.
  - destruct b as [|v [|v' b]]; [done| |done].
    intros [= _ <-].
    rewrite !length_app, length_fmap, !length_take, !length_drop. lia.
Qed.

Lemma store_length (st st' : win_state) (seg : list Qc) l :
  store st seg = (l, inr st') ->
  length (x_out st') = length (x_out st) ∧ idx st' = idx st + length seg.
Proof.
  unfold store. intros Hs.
  apply bind_inr_inv in Hs as (l1 & out & l2 & Hout & Hret & _).
  injection Hret as _ <-. cbn. split; [|done].
  eapply slice_iadd_length; [|done]. lia.
Qed.

Lemma chunk_process_x_out remove st c out st' l :
  chunk_process remove st c = (l, inr (out, st')) ->
  x_out st' = x_out st ∧ idx st' = idx st.
Proof.
  unfold chunk_process. intros Hp.
  apply bind_inr_inv in Hp as (l1 & r & l2 & _ & Hret & _).
  by injection Hret as _ _ <-.
Qed.

Lemma cola_feed_length `{NumLib} remove n_s n_o :
  ∀ fuel first pending buf st st' l,
    cola_feed (chunk_process remove) store n_s n_o fuel first pending buf st
      = (l, inr st') ->
    length (x_out st') = length (x_out st).
Proof.
  induction fuel as [|fuel IH]; intros first pending buf st st' l; [done|].
  cbn [cola_feed]. intros Hrun.
  apply bind_inr_inv in Hrun as (l1 & [out st1] & l2 & Hp & Hrun & _).
  apply chunk_process_x_out in Hp as [Hx _].
  case_bool_decide.
  - apply store_length in Hrun as [Hlen _]. congruence.
  - apply bind_inr_inv in Hrun as (l3 & st2 & l4 & Hs & Hrun & _).
    apply store_length in Hs as [Hlen _].
    apply IH in Hrun. congruence.
Qed.

(** ** The summary of removed frequencies (C5) *)

Lemma occurrences_app k l1 l2 :
  occurrences k (l1 ++ l2) = occurrences k l1 + occurrences k l2.
Proof. unfold occurrences. by rewrite filter_app, length_app. Qed.

Lemma occurrences_pos k l : 0 < occurrences k l ↔ k ∈ l.
Proof.
  unfold occurrences. induction l as [|a l IH].
  - cbn. split; [lia|by intros ?%elem_of_nil].
  - rewrite filter_cons, elem_of_cons. destruct (decide (a = k)) as [->|Hne].
    + cbn. split; [by left|lia].
    + rewrite IH. split; [by right|]. by intros [->|].
Qed.

Lemma occurrences_NoDup k l : NoDup l -> occurrences k l ≤ 1.
Proof.
  unfold occurrences. induction 1 as [|a l Hnin Hnd IH]; [cbn; lia|].
  rewrite filter_cons. destruct (decide (a = k)) as [->|Hne]; [|done].
  cbn.
  assert (occurrences k l = 0) as Hz.
  { destruct (occurrences k l) eqn:Ho; [done|].
    exfalso. apply Hnin, occurrences_pos. lia. }
  unfold occurrences in Hz. lia.
Qed.

Lemma Counter_step_lookup (m : gmap Z nat) (l : list Z) (k : Z) :
  default 0 (foldl (fun m k => <[k := S (default 0 (m !! k))]> m) m l !! k) =
    default 0 (m !! k) + occurrences k l ∧
  (is_Some (foldl (fun m k => <[k := S (default 0 (m !! k))]> m) m l !! k) ↔
     is_Some (m !! k) ∨ k ∈ l).
Proof.
  revert m. induction l as [|a l IH]; intros m; cbn [foldl].
  - unfold occurrences. cbn. split; [lia|].
    split; [by left|]. by intros [?|?%elem_of_nil].
  - destruct (IH (<[a := S (default 0 (m !! a))]> m)) as [Hv Hs].
    rewrite Hv, Hs. unfold occurrences. rewrite filter_cons, elem_of_cons.
    destruct (decide (a = k)) as [->|Hne].
    + rewrite lookup_insert_eq. cbn. split; [lia|].
      split; [intros _; by right; left|by eauto].
    + rewrite lookup_insert_ne by done. split; [done|].
      split; [intros [?|?]; eauto|]. intros [?|[->|?]]; by eauto.
Qed.

Lemma Counter_lookup (l : list Z) (k : Z) :
  default 0 (Counter l !! k) = occurrences k l.
Proof.
  unfold Counter. destruct (Counter_step_lookup ∅ l k) as [-> _].
  by rewrite lookup_empty.
Qed.

Lemma elem_of_dom_Counter (l : list Z) (k : Z) : k ∈ dom (Counter l) ↔ k ∈ l.
Proof.
  rewrite elem_of_dom. unfold Counter.
  destruct (Counter_step_lookup ∅ l k) as [_ ->]. rewrite lookup_empty.
  split; [intros [[? [=]]|?]; done|by right].
Qed.

Lemma StronglySorted_le_NoDup_lt (l : list Z) :
  StronglySorted Z.le l -> NoDup l -> StronglySorted Z.lt l.
Proof.
  induction 1 as [|a l Hs IH Hall]; intros Hnd; [constructor|].
  apply NoDup_cons in Hnd as [Hnin Hnd]. constructor; [by apply IH|].
  rewrite Forall_forall in *. intros b Hb.
  pose proof (Hall b Hb). assert (a ≠ b) by (by intros ->). lia.
Qed.

Lemma sorted_keys_sorted (counts : gmap Z nat) :
  StronglySorted Z.lt (sorted_keys counts).
Proof.
  unfold sorted_keys. apply StronglySorted_le_NoDup_lt.
  - apply StronglySorted_merge_sort; apply _.
  - rewrite merge_sort_Permutation. apply NoDup_elements.
Qed.

Lemma elem_of_sorted_keys (counts : gmap Z nat) (k : Z) :
  k ∈ sorted_keys counts ↔ k ∈ dom counts.
Proof. unfold sorted_keys. by rewrite merge_sort_Permutation, elem_of_elements. Qed.

(** The reported rows: increasing in frequency, one row per key of the
    counter, holding the count of the key. *)
Lemma found_freqs_spec (l : list Z) :
  StronglySorted Z.lt (fst <$> found_freqs (Counter l)) ∧
  ∀ k c, (k, c) ∈ found_freqs (Counter l) ↔ c = occurrences k l ∧ 0 < c.
Proof.
  unfold found_freqs. split.
  - assert (∀ (keys : list Z) (c : Z -> nat),
              fst <$> ((fun k => (k, c k)) <$> keys) = keys) as ->
      by (intros keys c; induction keys; cbn; congruence).
    apply sorted_keys_sorted.
  - intros k c. rewrite list_elem_of_fmap. setoid_rewrite elem_of_sorted_keys.
    setoid_rewrite elem_of_dom_Counter. setoid_rewrite Counter_lookup.
    split.
    + intros (k' & [= -> ->] & Hin). split; [done|]. by apply occurrences_pos.
    + intros [-> Hpos]. exists k. split; [done|]. by apply occurrences_pos.
Qed.

Lemma elem_of_np_unique (k : Z) (l : list Z) : k ∈ np_unique l ↔ k ∈ l.
Proof.
  unfold np_unique. by rewrite merge_sort_Permutation, elem_of_remove_dups.
Qed.

Lemma NoDup_np_unique (l : list Z) : NoDup (np_unique l).
Proof.
  unfold np_unique. rewrite merge_sort_Permutation. apply NoDup_remove_dups.
Qed.

Lemma occurrences_np_unique (k : Z) (l : list Z) :
  occurrences k (np_unique l) = if decide (k ∈ l) then 1 else 0.
Proof.
  pose proof (occurrences_NoDup k _ (NoDup_np_unique l)) as Hle.
  pose proof (occurrences_pos k (np_unique l)) as Hpos.
  rewrite elem_of_np_unique in Hpos.
  destruct (decide (k ∈ l)) as [Hin|Hnin].
  - apply Hpos in Hin. lia.
  - destruct (occurrences k (np_unique l)) eqn:Ho; [done|].
    exfalso. apply Hnin, Hpos. lia.
Qed.

(** In [filter.py] the count of a bin is the number of chunks in which
    it was removed. *)
Lemma occurrences_chunks (k : Z) (chunks : list (list Qc)) :
  occurrences k (concat ((fun ff => np_unique (np_round <$> ff)) <$> chunks)) =
    spec_chunk_count k chunks.
Proof.
  unfold spec_chunk_count. induction chunks as [|ff chunks IH]; [done|].
  cbn [fmap list_fmap concat]. rewrite occurrences_app, IH, filter_cons.
  rewrite occurrences_np_unique.
  destruct (decide (k ∈ np_round <$> ff)); cbn; lia.
Qed.

Lemma elem_of_concat {A} (x : A) (ls : list (list A)) :
  x ∈ concat ls ↔ ∃ l, x ∈ l ∧ l ∈ ls.
Proof.
  induction ls as [|l ls IH]; cbn.
  - split; [by intros ?%elem_of_nil|]. by intros (l & _ & ?%elem_of_nil).
  - rewrite elem_of_app, IH. split.
    + intros [Hx|(l' & Hx & Hl)]; [exists l; split; [done|by left]|].
      exists l'. split; [done|by right].
    + intros (l' & Hx & [->|Hl]%elem_of_cons); [by left|]. right. by exists l'.
Qed.

(** In [mt_filter.py] the rows are the 1 Hz bins of the frequencies
    removed from the chunks of the channel. *)
Lemma MtFilter_table_keys (rm : list (list Qc)) :
  StronglySorted Z.lt (fst <$> MtFilter_table rm) ∧
  ∀ k, k ∈ (fst <$> MtFilter_table rm) ↔
       ∃ ff f, ff ∈ rm ∧ f ∈ ff ∧ np_round f = k.
Proof.
  unfold MtFilter_table.
  destruct (found_freqs_spec
              (concat ((fun ff => np_unique [np_round ff]) <$> concat rm)))
    as [Hs Hc].
  split; [done|]. intros k. rewrite list_elem_of_fmap. split.
  - intros ([k' c] & -> & Hin). apply Hc in Hin as [-> Hpos].
    apply occurrences_pos in Hpos. rewrite elem_of_concat in Hpos.
    destruct Hpos as (u & Hk & Hu). apply list_elem_of_fmap in Hu as (f & -> & Hf).
    apply elem_of_np_unique, list_elem_of_singleton in Hk.
    apply elem_of_concat in Hf as (ff & Hf & Hff). by exists ff, f.
  - intros (ff & f & Hff & Hf & <-).
    set (l := concat _) in *.
    assert (np_round f ∈ l) as Hin.
    { unfold l. apply elem_of_concat. exists (np_unique [np_round f]). split.
      - apply elem_of_np_unique. by left.
      - apply list_elem_of_fmap. exists f. split; [done|].
        apply elem_of_concat. by exists ff. }
    exists (np_round f, occurrences (np_round f) l). split; [done|].
    apply Hc. split; [done|]. by apply occurrences_pos.
Qed.

Lemma Filter_table_spec (freq_list : list (list (list Qc))) :
  StronglySorted Z.lt (fst <$> Filter_table freq_list) ∧
  ∀ k c, (k, c) ∈ Filter_table freq_list ↔
         c = spec_chunk_count k (concat freq_list) ∧ 0 < c.
Proof.
  unfold Filter_table.
  destruct (found_freqs_spec
              (concat ((fun ff => np_unique (np_round <$> ff))
                         <$> concat freq_list))) as [Hs Hc].
  split; [done|]. intros k c. by rewrite Hc, occurrences_chunks.
Qed.

(** ** Channels and buffers (C5, C6, C9) *)

Lemma mapM_inr_inv {A B} (f : A -> M B) (xs : list A) (ys : list B) l :
  mapM f xs = (l, inr ys) ->
  Forall2 (fun x y => ∃ l', f x = (l', inr y)) xs ys.
Proof.
  revert ys l. induction xs as [|x xs IH]; intros ys l; cbn [mapM].
  - intros [= _ <-]. constructor.
  - intros Hm. apply bind_inr_inv in Hm as (l1 & y & l2 & Hf & Hm & _).
    apply bind_inr_inv in Hm as (l3 & ys' & l4 & Hrec & Hret & _).
    injection Hret as _ <-. constructor; [by eauto|by eapply IH].
Qed.

Section Channel.
Context `{NumLib}.

Lemma prep_for_filtering_inv x picks x2 os pk l :
  prep_for_filtering x picks = (l, inr (x2, os, pk)) ->
  os = shape x ∧ rows x2 = rows x ∧
  x2 = NDArray [prod_list (removelast (shape (np_atleast_2d x)));
                default 0 (last (shape (np_atleast_2d x)))]
               (rows (np_atleast_2d x)).
Proof.
  unfold prep_for_filtering. intros Hp.
  apply bind_inr_inv in Hp as (l1 & pk1 & l2 & _ & Hp & _).
  apply bind_inr_inv in Hp as (l3 & pk2 & l4 & _ & Hp & _).
  destruct (forallb _ pk2); [|done]. injection Hp as _ <- <- <-.
  split; [done|]. split; [|done]. cbn.
  unfold np_atleast_2d. by destruct (shape x) as [|? [|? ?]].
Qed.

Lemma Filter_mt_remove_win_run x sf lf nw get wf thr g :
  let n_s := taper_len wf in
  let chunks := cola_chunks n_s (overlap_of n_s) (S (length x)) x in
  get None = ret (wf, thr) ->
  (∀ c, c ∈ chunks ->
        Filter._mt_remove c sf lf nw wf thr get = ret (g c) ∧
        length (g c).1 = length c) ->
  (2 ≤ n_s ∨ length x ≤ n_s) ->
  ∃ st',
    COLA (chunk_process (fun x_ => Filter._mt_remove x_ sf lf nw wf thr get))
         store (length x) n_s (overlap_of n_s) x
         (WinState (replicate (length x) 0%Qc) [] 0) = ret st' ∧
    idx st' = length x ∧ length (x_out st') = length x ∧
    rm_freqs st' = (fun c => (g c).2) <$> chunks ∧
    Filter._mt_remove_win x sf lf nw get = ret (x_out st', rm_freqs st').
Proof.
  intros n_s chunks Hget Hrem Hn.
  destruct (COLA_run (fun x_ => Filter._mt_remove x_ sf lf nw wf thr get)
                     g n_s x Hrem Hn) as (st' & Hrun & Hidx & Hlen & Hrm).
  exists st'. repeat split; try done.
  unfold Filter._mt_remove_win. rewrite Hget. msimpl.
  cbv beta iota zeta. fold n_s. rewrite Hrun. msimpl.
  by rewrite decide_True.
Qed.

Lemma MtFilter_call_run self x wf thr g :
  let n_s := taper_len wf in
  let chunks := cola_chunks n_s (overlap_of n_s) (S (length x)) x in
  let remove := fun x_ =>
    MtFilter._mt_remove x_ (MtFilter.sfreq self) (MtFilter.line_freqs self)
      (MtFilter.notch_width self) wf thr (MtFilter.BoundMethod self) in
  MtFilter.get_thresh self None = ret (wf, thr) ->
  (∀ c, c ∈ chunks -> remove c = ret (g c) ∧ length (g c).1 = length c) ->
  (2 ≤ n_s ∨ length x ≤ n_s) ->
  ∃ st',
    COLA (chunk_process remove) store (length x) n_s (overlap_of n_s) x
         (WinState (replicate (length x) 0%Qc) [] 0) = ret st' ∧
    idx st' = length x ∧ length (x_out st') = length x ∧
    rm_freqs st' = (fun c => (g c).2) <$> chunks ∧
    MtFilter.__call__ self x =
      ([(kind_of (MtFilter.line_freqs self), MtFilter_table (rm_freqs st'))],
       inr (x_out st')).
Proof.
  intros n_s chunks remove Hget Hrem Hn.
  destruct (COLA_run remove g n_s x Hrem Hn) as (st' & Hrun & Hidx & Hlen & Hrm).
  exists st'. repeat split; try done.
  unfold MtFilter.__call__. rewrite Hget. msimpl.
  cbv beta iota zeta. fold n_s remove. rewrite Hrun. msimpl.
  by rewrite decide_True.
Qed.

Lemma Filter_mt_remove_win_length x sf lf nw get y rm l :
  Filter._mt_remove_win x sf lf nw get = (l, inr (y, rm)) ->
  length y = length x.
Proof.
  unfold Filter._mt_remove_win. intros Hw.
  apply bind_inr_inv in Hw as (l1 & [wf thr] & l2 & _ & Hw & _).
  apply bind_inr_inv in Hw as (l3 & st' & l4 & Hrun & Hw & _).
  destruct (decide _); [|done]. injection Hw as _ <- _.
  apply cola_feed_length in Hrun. cbn in Hrun.
  by rewrite length_replicate in Hrun.
Qed.

Lemma MtFilter_call_length self x y l :
  MtFilter.__call__ self x = (l, inr y) -> length y = length x.
Proof.
  unfold MtFilter.__call__. intros Hw.
  apply bind_inr_inv in Hw as (l1 & [wf thr] & l2 & _ & Hw & _).
  apply bind_inr_inv in Hw as (l3 & st' & l4 & Hrun & Hw & _).
  destruct (decide _); [|done].
  apply bind_inr_inv in Hw as (l5 & [] & l6 & _ & Hw & _).
  injection Hw as _ <-.
  apply cola_feed_length in Hrun. cbn in Hrun.
  by rewrite length_replicate in Hrun.
Qed.

(** The loop of [filter.py] over the channels touches the picked rows
    only. *)
Lemma channels_inv filt picks :
  ∀ xs ii ys fl l,
    Filter.channels filt picks ii xs = (l, inr (ys, fl)) ->
    length ys = length xs ∧
    (∀ j, ii + j ∉ picks -> ys !! j = xs !! j) ∧
    ((∀ x y f l', filt x = (l', inr (y, f)) -> length y = length x) ->
     Forall2 (fun r r' => length r' = length r) xs ys).
Proof.
  induction xs as [|x xs IH]; intros ii ys fl l; cbn [Filter.channels].
  - intros [= _ <- _]. split; [done|]. split; [done|]. intros _. constructor.
  - case_bool_decide as Hpick.
    + intros Hc. apply bind_inr_inv in Hc as (l1 & [y f] & l2 & Hf & Hc & _).
      apply bind_inr_inv in Hc as (l3 & [ys' fl'] & l4 & Hrec & Hret & _).
      injection Hret as _ <- _. apply IH in Hrec as (Hlen & Hframe & Hrows).
      split; [cbn; lia|]. split.
      * intros [|j] Hj; [by rewrite Nat.add_0_r in Hj|].
        cbn. apply Hframe. by replace (S ii + j) with (ii + S j) by lia.
      * intros Hfilt. constructor; [by eapply Hfilt|by apply Hrows].
    + intros Hc.
      apply bind_inr_inv in Hc as (l3 & [ys' fl'] & l4 & Hrec & Hret & _).
      injection Hret as _ <- _. apply IH in Hrec as (Hlen & Hframe & Hrows).
      split; [cbn; lia|]. split.
      * intros [|j] Hj; [done|].
        cbn. apply Hframe. by replace (S ii + j) with (ii + S j) by lia.
      * intros Hfilt. constructor; [done|by apply Hrows].
Qed.

Lemma Filter_mt_spectrum_proc_inv x sf lf nw picks get y l :
  Filter.mt_spectrum_proc x sf lf nw picks get = (l, inr y) ->
  ∃ x2 pk ys fl l1 l2,
    prep_for_filtering x picks = (l1, inr (x2, shape x, pk)) ∧
    Filter.channels
      (fun x_ => Filter._mt_remove_win x_ sf lf nw get) pk 0 (rows x)
      = (l2, inr (ys, fl)) ∧
    y = NDArray (shape x) ys ∧
    l = l1 ++ l2 ++ [(kind_of lf, Filter_table fl)].
Proof.
  unfold Filter.mt_spectrum_proc. intros Hm.
  apply bind_inr_inv in Hm as (l1 & [[x2 os] pk] & l2 & Hp & Hm & ->).
  destruct (prep_for_filtering_inv _ _ _ _ _ _ Hp) as (-> & Hrows & _).
  apply bind_inr_inv in Hm as (l3 & [ys fl] & l4 & Hc & Hm & ->).
  apply bind_inr_inv in Hm as (l5 & [] & l6 & Hlog & Hret & ->).
  injection Hlog as <-. injection Hret as <- <-.
  rewrite Hrows in Hc. exists x2, pk, ys, fl, l1, l3.
  repeat split; try done.
Qed.

End Channel.

(** In [filter.py] the rows that are not picked come back as they
    went in. *)
Lemma Filter_unpicked_rows_unchanged `{NumLib} x sf lf nw picks get y l :
  Filter.mt_spectrum_proc x sf lf nw picks get = (l, inr y) ->
  ∃ x2 pk l1,
    prep_for_filtering x picks = (l1, inr (x2, shape x, pk)) ∧
    ∀ ii, ii ∉ pk -> rows y !! ii = rows x !! ii.
Proof.
  intros Hm.
  apply Filter_mt_spectrum_proc_inv in Hm
    as (x2 & pk & ys & fl & l1 & l2 & Hp & Hc & -> & _).
  exists x2, pk, l1. split; [done|]. intros ii Hii.
  apply channels_inv in Hc as (_ & Hframe & _). by apply Hframe.
Qed.

Lemma set_data_rows_other (mask : list bool) (data y : list (list Qc)) i :
  mask !! i = Some false -> set_data_rows mask data y !! i = data !! i.
Proof.
  revert data y i. induction mask as [|b mask IH]; intros data y i; [done|].
  destruct data as [|d data]; [by destruct b|].
  destruct i as [|i]; cbn.
  - intros [= ->]. done.
  - intros Hi. destruct b; [destruct y|]; cbn; by apply IH.
Qed.

(** The channels that are not data channels come back from
    [line_filter] as they went in, in both files. *)
Lemma non_data_channels_untouched `{NumLib}
    raw fs freqs flen widths bw p picks ad lb filt l i :
  (Filter.line_filter raw fs freqs flen widths bw p picks ad lb = (l, inr filt) ∨
   MtFilter.line_filter raw fs freqs flen widths bw p picks ad lb = (l, inr filt)) ->
  ch_is_data raw !! i = Some false ->
  _data filt !! i = _data raw !! i.
Proof.
  intros [Hf|Hf] Hi; unfold Filter.line_filter, MtFilter.line_filter in Hf;
    apply bind_inr_inv in Hf as (l1 & [f w] & l2 & _ & Hf & _);
    apply bind_inr_inv in Hf as (l3 & n & l4 & _ & Hf & _);
    apply bind_inr_inv in Hf as (l5 & y & l6 & _ & Hf & _);
    injection Hf as _ <-; cbn; by apply set_data_rows_other.
Qed.

(** C6: in [mt_filter.py] the expanded picks are computed and then
    dropped: the dispatcher is handed the callable and the whole buffer,
    so whatever it does with them and whatever is picked, the same rows
    are filtered in the same way. *)
Theorem MtFilter_picks_are_ignored `{NumLib}
    (dispatch : (list Qc -> M (list Qc)) -> ndarray -> M ndarray)
    (x : ndarray) (process : list Qc -> M (list Qc))
    (picks1 picks2 : option (list Z)) r1 r2 :
  prep_for_filtering x picks1 = ret r1 ->
  prep_for_filtering x picks2 = ret r2 ->
  MtFilter.mt_spectrum_proc_with dispatch x process picks1 =
  MtFilter.mt_spectrum_proc_with dispatch x process picks2.
Proof.
  intros H1 H2. unfold MtFilter.mt_spectrum_proc_with. rewrite H1, H2. msimpl.
  destruct r1 as [[x1 os1] pk1], r2 as [[x2 os2] pk2].
  destruct (prep_for_filtering_inv _ _ _ _ _ _ H1) as (-> & _ & ->).
  destruct (prep_for_filtering_inv _ _ _ _ _ _ H2) as (-> & _ & ->).
  done.
Qed.

Lemma MtFilter_picks_are_ignored_witness :
  @MtFilter.mt_spectrum_proc (demo_lib demo_axis) demo_buffer
     (@MtFilter.__call__ (demo_lib demo_axis) demo_remover) (Some [0%Z]) =
  @MtFilter.mt_spectrum_proc (demo_lib demo_axis) demo_buffer
     (@MtFilter.__call__ (demo_lib demo_axis) demo_remover) None.
Proof.
  unfold MtFilter.mt_spectrum_proc.
  eapply (@MtFilter_picks_are_ignored (demo_lib demo_axis)); reflexivity.
Defined.

(** With only channel 0 picked, [mt_filter.py] changes channel 1 as
    well; [filter.py] leaves it alone. *)
Lemma MtFilter_filters_unpicked_channel :
  rows demo_buffer !! 1 = Some (qz <$> [7; 1; 2]%Z) ∧
  (rows <$> returned
     (@MtFilter.mt_spectrum_proc (demo_lib demo_axis) demo_buffer
        (@MtFilter.__call__ (demo_lib demo_axis) demo_remover) (Some [0%Z])))
    = Some [qz <$> [0; -4; -3]%Z; qz <$> [0; -6; -5]%Z] ∧
  (rows <$> returned
     (@Filter.mt_spectrum_proc (demo_lib demo_axis) demo_buffer (qz 1000)
        (PyArr (IntArr [60%Z])) (PyArr (IntArr [10%Z])) (Some [0%Z])
        demo_get_wt))
    = Some [qz <$> [0; -4; -3]%Z; qz <$> [7; 1; 2]%Z].
Proof. repeat split; compute_done. Qed.

(** C5, as written, fails for [mt_filter.py]: for two channels it logs
    two tables, one per channel, and never the table that aggregates
    both, which is what [filter.py] logs. *)
Lemma MtFilter_reports_per_channel :
  logged (@MtFilter.mt_spectrum_proc (demo_lib demo_axis) demo_buffer
            (@MtFilter.__call__ (demo_lib demo_axis) demo_remover) None)
    = [(Removed, [(60%Z, 1)]); (Removed, [(60%Z, 1)])] ∧
  logged (@Filter.mt_spectrum_proc (demo_lib demo_axis) demo_buffer (qz 1000)
            (PyArr (IntArr [60%Z])) (PyArr (IntArr [10%Z])) None demo_get_wt)
    = [(Removed, [(60%Z, 2)])].
Proof. split; compute_done. Qed.

(** One chunk in which 59.6 Hz and 60.4 Hz were removed: [filter.py]
    counts the 60 Hz bin once, [mt_filter.py] counts it twice. *)
Lemma one_chunk_two_bins :
  Filter_table [[[Q2Qc (298 # 5); Q2Qc (302 # 5)]]] = [(60%Z, 1)] ∧
  MtFilter_table [[Q2Qc (298 # 5); Q2Qc (302 # 5)]] = [(60%Z, 2)].
Proof. split; compute_done. Qed.

(** C5, amended: [filter.py] logs, after all picked channels are
    filtered, one table for the removal records of all channels: rows
    sorted by frequency, one row per 1 Hz bin removed somewhere, holding
    the number of chunks in which the bin was removed.  [mt_filter.py]
    logs one table per channel, from the records of that channel alone:
    rows sorted by frequency, one row per 1 Hz bin removed in some chunk
    of the channel.  Both are framed "Detected" without target
    frequencies and "Removed" with them. *)
Theorem removal_reports `{NumLib} :
  (∀ x sf lf nw picks get x2 os pk ys fl,
     prep_for_filtering x picks = ret (x2, os, pk) ->
     Filter.channels (fun x_ => Filter._mt_remove_win x_ sf lf nw get)
                     pk 0 (rows x2) = ret (ys, fl) ->
     Filter.mt_spectrum_proc x sf lf nw picks get =
       ([(kind_of lf, Filter_table fl)], inr (NDArray os ys)) ∧
     StronglySorted Z.lt (fst <$> Filter_table fl) ∧
     (∀ k c, (k, c) ∈ Filter_table fl ↔
             c = spec_chunk_count k (concat fl) ∧ 0 < c)) ∧
  (∀ self x wf thr st',
     MtFilter.get_thresh self None = ret (wf, thr) ->
     COLA (chunk_process (fun x_ =>
             MtFilter._mt_remove x_ (MtFilter.sfreq self)
               (MtFilter.line_freqs self) (MtFilter.notch_width self) wf thr
               (MtFilter.BoundMethod self)))
          store (length x) (taper_len wf) (overlap_of (taper_len wf)) x
          (WinState (replicate (length x) 0%Qc) [] 0) = ret st' ->
     idx st' = length x ->
     MtFilter.__call__ self x =
       ([(kind_of (MtFilter.line_freqs self), MtFilter_table (rm_freqs st'))],
        inr (x_out st')) ∧
     StronglySorted Z.lt (fst <$> MtFilter_table (rm_freqs st')) ∧
     (∀ k, k ∈ (fst <$> MtFilter_table (rm_freqs st')) ↔
           ∃ ff f, ff ∈ rm_freqs st' ∧ f ∈ ff ∧ np_round f = k)) ∧
  kind_of PyNone = Detected ∧
  (∀ lf, lf ≠ PyNone -> kind_of lf = Removed).
Proof.
  split; [|split; [|split]].
  - intros x sf lf nw picks get x2 os pk ys fl Hp Hc.
    destruct (Filter_table_spec fl) as [Hs Hcount].
    split; [|done].
    unfold Filter.mt_spectrum_proc. rewrite Hp. msimpl.
    cbv beta iota. rewrite Hc. by msimpl.
  - intros self x wf thr st' Hget Hrun Hidx.
    destruct (MtFilter_table_keys (rm_freqs st')) as [Hs Hk].
    split; [|done].
    unfold MtFilter.__call__. rewrite Hget. msimpl.
    cbv beta iota zeta. rewrite Hrun. msimpl. by rewrite decide_True.
  - done.
  - by intros [].
Qed.

Lemma removal_reports_witness :
  logged (@Filter.mt_spectrum_proc (demo_lib demo_axis) demo_buffer (qz 1000)
            (PyArr (IntArr [60%Z])) (PyArr (IntArr [10%Z])) None demo_get_wt)
    = [(Removed, [(60%Z, 2)])].
Proof.
  destruct (@removal_reports (demo_lib demo_axis)) as (HF & _).
  edestruct (HF demo_buffer (qz 1000) (PyArr (IntArr [60%Z]))
               (PyArr (IntArr [10%Z])) None demo_get_wt) as (Hr & _).
  - reflexivity.
  - cbn [rows]. vm_compute. reflexivity.
  - rewrite Hr. vm_compute. reflexivity.
Defined.

(** C9: a buffer that comes back from the filter has the shape it went
    in with, axis by axis, in both files; and when the remover succeeds
    on every chunk of a channel and keeps its length, the run of the
    channel ends with the write cursor at the channel length, so the
    assertion holds and the filtered channel is returned. *)
Theorem filtered_buffer_keeps_shape `{NumLib} :
  (∀ x sf lf nw picks get y l,
     Filter.mt_spectrum_proc x sf lf nw picks get = (l, inr y) ->
     shape y = shape x ∧
     Forall2 (fun r r' => length r' = length r) (rows x) (rows y)) ∧
  (∀ x self picks y l,
     MtFilter.mt_spectrum_proc x (MtFilter.__call__ self) picks = (l, inr y) ->
     shape y = shape x ∧
     Forall2 (fun r r' => length r' = length r) (rows x) (rows y)) ∧
  (∀ x sf lf nw get wf thr g,
     get None = ret (wf, thr) ->
     (∀ c, c ∈ cola_chunks (taper_len wf) (overlap_of (taper_len wf))
                           (S (length x)) x ->
           Filter._mt_remove c sf lf nw wf thr get = ret (g c) ∧
           length (g c).1 = length c) ->
     (2 ≤ taper_len wf ∨ length x ≤ taper_len wf) ->
     ∃ st',
       COLA (chunk_process
               (fun x_ => Filter._mt_remove x_ sf lf nw wf thr get))
            store (length x) (taper_len wf) (overlap_of (taper_len wf)) x
            (WinState (replicate (length x) 0%Qc) [] 0) = ret st' ∧
       idx st' = length x ∧ length (x_out st') = length x ∧
       Filter._mt_remove_win x sf lf nw get = ret (x_out st', rm_freqs st')) ∧
  (∀ self x wf thr g,
     MtFilter.get_thresh self None = ret (wf, thr) ->
     (∀ c, c ∈ cola_chunks (taper_len wf) (overlap_of (taper_len wf))
                           (S (length x)) x ->
           MtFilter._mt_remove c (MtFilter.sfreq self)
             (MtFilter.line_freqs self) (MtFilter.notch_width self) wf thr
             (MtFilter.BoundMethod self) = ret (g c) ∧
           length (g c).1 = length c) ->
     (2 ≤ taper_len wf ∨ length x ≤ taper_len wf) ->
     ∃ st',
       COLA (chunk_process (fun x_ =>
               MtFilter._mt_remove x_ (MtFilter.sfreq self)
                 (MtFilter.line_freqs self) (MtFilter.notch_width self) wf thr
                 (MtFilter.BoundMethod self)))
            store (length x) (taper_len wf) (overlap_of (taper_len wf)) x
            (WinState (replicate (length x) 0%Qc) [] 0) = ret st' ∧
       idx st' = length x ∧ length (x_out st') = length x ∧
       returned (MtFilter.__call__ self x) = Some (x_out st')).
Proof.
  split; [|split; [|split]].
  - intros x sf lf nw picks get y l Hm.
    apply Filter_mt_spectrum_proc_inv in Hm
      as (x2 & pk & ys & fl & l1 & l2 & Hp & Hc & -> & _).
    split; [done|]. cbn [rows].
    apply channels_inv in Hc as (_ & _ & Hrows). apply Hrows.
    intros r y f l'. apply Filter_mt_remove_win_length.
  - intros x self picks y l Hm.
    unfold MtFilter.mt_spectrum_proc, MtFilter.mt_spectrum_proc_with in Hm.
    apply bind_inr_inv in Hm as (l1 & [[x2 os] pk] & l2 & Hp & Hm & _).
    destruct (prep_for_filtering_inv _ _ _ _ _ _ Hp) as (-> & Hrows & _).
    apply bind_inr_inv in Hm as (l3 & x3 & l4 & Hpa & Hret & _).
    injection Hret as _ <-. split; [done|]. cbn [rows].
    unfold MtFilter.proc_array in Hpa.
    apply bind_inr_inv in Hpa as (l5 & ys & l6 & Hmap & Hret & _).
    injection Hret as _ <-. cbn [rows]. rewrite Hrows in Hmap.
    apply mapM_inr_inv in Hmap.
    eapply Forall2_impl; [exact Hmap|].
    intros r r' [l' Hcall]. by eapply MtFilter_call_length.
  - intros x sf lf nw get wf thr g Hget Hrem Hn.
    destruct (Filter_mt_remove_win_run x sf lf nw get wf thr g Hget Hrem Hn)
      as (st' & Hrun & Hidx & Hlen & _ & Hwin).
    by exists st'.
  - intros self x wf thr g Hget Hrem Hn.
    destruct (MtFilter_call_run self x wf thr g Hget Hrem Hn)
      as (st' & Hrun & Hidx & Hlen & _ & Hcall).
    exists st'. repeat split; try done. by rewrite Hcall.
Qed.

Lemma filtered_buffer_keeps_shape_witness :
  ∃ st',
    @COLA (demo_lib demo_axis) _ (chunk_process demo_remove4) store 5 4 2
          demo_channel (WinState (replicate 5 0%Qc) [] 0) = ret st' ∧
    idx st' = 5 ∧ length (x_out st') = 5.
Proof.
  destruct (@filtered_buffer_keeps_shape (demo_lib demo_axis))
    as (_ & _ & HF & _).
  destruct (HF demo_channel (qz 1000) (PyArr (IntArr [60%Z]))
              (PyArr (IntArr [10%Z])) demo_get_wt4 (4, 4) (Q2Qc (79 # 80))
              demo_result4) as (st' & Hrun & Hidx & Hlen & _).
  - vm_compute. reflexivity.
  - intros c Hc. vm_compute in Hc.
    apply elem_of_cons in Hc as [->|Hc];
      [|apply elem_of_cons in Hc as [->|Hc]; [|by apply elem_of_nil in Hc]];
      split; vm_compute; reflexivity.
  - left. cbn. lia.
  - exists st'. split; [exact Hrun|]. split; [exact Hidx|exact Hlen].
Defined.

(** * Further properties of the code *)

(** ** The detector of [_mt_remove] *)

Lemma keep_in_ranges_run ranges freqs indices :
  (ranges ≠ [] -> ∀ i, i ∈ indices -> i < length freqs) ->
  keep_in_ranges ranges freqs indices =
    ret (List.filter (fun i => in_ranges ranges (default 0%Qc (freqs !! i)))
                     indices).
Proof.
  induction indices as [|i l IH]; intros Hb; cbn [keep_in_ranges List.filter];
    [done|].
  rewrite IH by (intros Hr j Hj; apply Hb; [done|by right]).
  destruct ranges as [|r ranges].
  - msimpl. done.
  - rewrite py_index_default by (apply Hb; [done|left]). msimpl. done.
Qed.

Lemma keep_in_ranges_inv ranges freqs indices out l :
  keep_in_ranges ranges freqs indices = (l, inr out) ->
  ranges ≠ [] -> ∀ i, i ∈ indices -> i < length freqs.
Proof.
  revert out l. induction indices as [|i idx IH]; intros out l Hk Hr j Hj.
  - by apply elem_of_nil in Hj.
  - cbn [keep_in_ranges] in Hk.
    apply bind_inr_inv in Hk as (l1 & keep & l2 & Hkeep & Hk & _).
    apply bind_inr_inv in Hk as (l3 & rest & l4 & Hrest & _ & _).
    apply elem_of_cons in Hj as [->|Hj]; [|by eapply IH].
    destruct ranges as [|r ranges]; [done|].
    apply bind_inr_inv in Hkeep as (l5 & f & l6 & Hf & _ & _).
    unfold py_index in Hf. destruct (freqs !! i) eqn:Hi; [|done].
    by eapply lookup_lt_Some.
Qed.

Lemma filter_true {A} (l : list A) : List.filter (fun _ => true) l = l.
Proof. induction l as [|a l IH]; cbn; congruence. Qed.

Lemma sublist_List_filter {A} (P : A -> bool) (l1 l2 : list A) :
  l1 `sublist_of` l2 -> List.filter P l1 `sublist_of` List.filter P l2.
Proof.
  induction 1 as [|a l1 l2 Hs IH|a l1 l2 Hs IH]; cbn.
  - constructor.
  - destruct (P a); [by constructor|done].
  - destruct (P a); [by constructor|done].
Qed.

Lemma sublist_elem_of {A} (l1 l2 : list A) (a : A) :
  l1 `sublist_of` l2 -> a ∈ l1 -> a ∈ l2.
Proof.
  induction 1 as [|b l1 l2 Hs IH|b l1 l2 Hs IH]; [done|..].
  - rewrite !elem_of_cons. intros [->|?]; [by left|right; by apply IH].
  - intros ?. right. by apply IH.
Qed.

Lemma restrict_indices_cases (lf nw : pyarg) (freqs : list Qc) :
  (∀ idx, restrict_indices lf nw freqs idx = ret idx) ∨
  (∀ idx, restrict_indices lf nw freqs idx = raise TypeError) ∨
  (∃ ranges, ∀ idx,
     restrict_indices lf nw freqs idx = keep_in_ranges ranges freqs idx).
Proof.
  destruct lf as [|a|lf|fa], nw as [|w|ws|wa];
    first [ by left
          | by (right; left)
          | right; right; eexists; intros idx; unfold restrict_indices;
            cbn [py_items]; msimpl; reflexivity ].
Qed.

(** The range filter of [_mt_remove] is a filter: there is a test on
    bins, fixed by the targets, the widths and the frequency axis, such
    that whenever the block returns it returns the bins that pass the
    test, and it then also returns for any part of these bins. *)
Lemma restrict_indices_filter (lf nw : pyarg) (freqs : list Qc) :
  ∃ P : nat -> bool,
    ∀ idx l out,
      restrict_indices lf nw freqs idx = (l, inr out) ->
      l = [] ∧ out = List.filter P idx ∧
      ∀ idx', idx' `sublist_of` idx ->
        restrict_indices lf nw freqs idx' = ret (List.filter P idx').
Proof.
  destruct (restrict_indices_cases lf nw freqs) as [Hr|[Hr|[ranges Hr]]].
  - exists (fun _ => true). intros idx l out. rewrite Hr. intros [= <- <-].
    rewrite filter_true. split; [done|]. split; [done|].
    intros idx' _. by rewrite Hr, filter_true.
  - exists (fun _ => true). intros idx l out. by rewrite Hr.
  - exists (fun i => in_ranges ranges (default 0%Qc (freqs !! i))).
    intros idx l out. rewrite Hr. intros Hk.
    pose proof (keep_in_ranges_inv _ _ _ _ _ Hk) as Hb.
    rewrite keep_in_ranges_run in Hk by done. injection Hk as <- <-.
    split; [done|]. split; [done|]. intros idx' Hsub. rewrite Hr.
    apply keep_in_ranges_run. intros Hne i Hi. apply Hb; [done|].
    by eapply sublist_elem_of.
Qed.

Lemma where_from_sublist (i : nat) (f_stat : list Qc) (thr1 thr2 : Qc) :
  (thr1 ≤ thr2)%Qc ->
  where_from i f_stat thr2 `sublist_of` where_from i f_stat thr1.
Proof.
  intros Hle. revert i. induction f_stat as [|v f IH]; intros i;
    cbn [where_from]; [constructor|].
  destruct (decide (thr2 < v)%Qc) as [H2|H2].
  - rewrite decide_True by (by eapply Qcle_lt_trans). by constructor.
  - destruct (decide (thr1 < v)%Qc); [by constructor|done].
Qed.

Lemma where_from_sorted (i : nat) (f_stat : list Qc) (thr : Qc) :
  StronglySorted lt (where_from i f_stat thr).
Proof.
  revert i. induction f_stat as [|v f IH]; intros i; cbn [where_from];
    [constructor|].
  destruct (decide _); [|done]. constructor; [done|].
  apply Forall_forall. intros j Hj. apply elem_of_where_from in Hj. lia.
Qed.

Lemma StronglySorted_List_filter {A} (R : relation A) (P : A -> bool) l :
  StronglySorted R l -> StronglySorted R (List.filter P l).
Proof.
  induction 1 as [|a l Hs IH Hall]; cbn; [constructor|].
  destruct (P a); [|done]. constructor; [done|].
  rewrite Forall_forall in *. intros b Hb.
  apply list_elem_of_In, filter_In in Hb as [Hb _].
  by apply Hall, list_elem_of_In.
Qed.

Section Detector.
Context `{NumLib}.

(** A run of the body of [_mt_remove] that returns: the bins it
    removed, with what it returns written out. *)
Lemma remove_lines_inv x sf lf nw wf thr y r l :
  let freqs := (mt_spectra x wf sf).2 in
  let f_stat := (sine_f_test wf (mt_spectra x wf sf).1).1 in
  let A := (sine_f_test wf (mt_spectra x wf sf).1).2 in
  remove_lines x sf lf nw wf thr = (l, inr (y, r)) ->
  ∃ idxs,
    restrict_indices lf nw freqs (np_where_gt f_stat thr) = ret idxs ∧
    (∀ i, i ∈ idxs -> i < length freqs ∧ i < length A) ∧
    l = [] ∧ y = spec_cleaned sf freqs A idxs x ∧
    r = (fun i => default 0%Qc (freqs !! i)) <$> idxs.
Proof.
  intros freqs f_stat A Hrun.
  assert (∃ idxs,
    restrict_indices lf nw freqs (np_where_gt f_stat thr) = ret idxs ∧
    (∀ i, i ∈ idxs -> i < length freqs ∧ i < length A)) as (idxs & Hr & Hb).
  { revert Hrun. unfold remove_lines, freqs, f_stat, A.
    destruct (mt_spectra x wf sf) as [x_p fr]. cbn [fst snd].
    destruct (sine_f_test wf x_p) as [fs Am]. cbn [fst snd]. intros Hrun.
    apply bind_inr_inv in Hrun as (l1 & idxs & l2 & Hr & Hrun & _).
    destruct (restrict_indices_filter lf nw fr) as [P HP].
    destruct (HP _ _ _ Hr) as (-> & _ & _).
    exists idxs. split; [done|].
    apply bind_inr_inv in Hrun as (l3 & fits & l4 & Hfits & _ & _).
    apply mapM_inr_inv in Hfits. intros i Hi.
    apply list_elem_of_lookup in Hi as [k Hk].
    destruct (Forall2_lookup_l _ _ _ _ _ Hfits Hk) as (fit & _ & l' & Hfit).
    apply bind_inr_inv in Hfit as (l5 & a & l6 & Ha & Hfit & _).
    apply bind_inr_inv in Hfit as (l7 & f & l8 & Hf & _ & _).
    unfold py_index in Ha, Hf.
    destruct (Am !! i) eqn:HA; [|done]. destruct (fr !! i) eqn:HF; [|done].
    split; by eapply lookup_lt_Some. }
  exists idxs. split; [done|]. split; [done|].
  pose proof (remove_lines_result x sf lf nw wf thr idxs Hr Hb) as Heq.
  rewrite Heq in Hrun. by injection Hrun as <- <- <-.
Qed.

Lemma remove_lines_mono x sf lf nw wf thr1 thr2 y1 r1 l1 :
  (thr1 ≤ thr2)%Qc ->
  remove_lines x sf lf nw wf thr1 = (l1, inr (y1, r1)) ->
  ∃ y2 r2, remove_lines x sf lf nw wf thr2 = ret (y2, r2) ∧
           r2 `sublist_of` r1.
Proof.
  intros Hle Hrun.
  apply remove_lines_inv in Hrun as (idxs1 & Hr1 & Hb1 & _ & _ & ->).
  destruct (restrict_indices_filter lf nw (mt_spectra x wf sf).2) as [P HP].
  destruct (HP _ _ _ Hr1) as (_ & Hidx1 & Hsub).
  set (f_stat := (sine_f_test wf (mt_spectra x wf sf).1).1) in *.
  assert (np_where_gt f_stat thr2 `sublist_of` np_where_gt f_stat thr1)
    as Hw by (by apply where_from_sublist).
  pose proof (Hsub _ Hw) as Hr2.
  assert (List.filter P (np_where_gt f_stat thr2) `sublist_of` idxs1) as Hs.
  { rewrite Hidx1. by apply sublist_List_filter. }
  eexists _, _. split.
  - apply remove_lines_result; [exact Hr2|].
    intros i Hi. apply Hb1. by eapply sublist_elem_of.
  - by apply fmap_sublist.
Qed.

Lemma remove_lines_bins x sf lf nw wf thr y r l :
  let freqs := (mt_spectra x wf sf).2 in
  let f_stat := (sine_f_test wf (mt_spectra x wf sf).1).1 in
  let A := (sine_f_test wf (mt_spectra x wf sf).1).2 in
  remove_lines x sf lf nw wf thr = (l, inr (y, r)) ->
  ∃ bins,
    StronglySorted lt bins ∧
    (∀ i, i ∈ bins ->
       ∃ v f, f_stat !! i = Some v ∧ (thr < v)%Qc ∧ freqs !! i = Some f) ∧
    r = (fun i => default 0%Qc (freqs !! i)) <$> bins ∧
    y = spec_cleaned sf freqs A bins x ∧
    length y = length x ∧ l = [].
Proof.
  intros freqs f_stat A Hrun.
  apply remove_lines_inv in Hrun as (idxs & Hr & Hb & -> & -> & ->).
  fold freqs f_stat A in Hr, Hb.
  destruct (restrict_indices_filter lf nw freqs) as [P HP].
  destruct (HP _ _ _ Hr) as (_ & Hidx & _).
  exists idxs. split; [|split; [|split; [done|split; [done|split; [|done]]]]].
  - rewrite Hidx. apply StronglySorted_List_filter, where_from_sorted.
  - intros i Hi. destruct (Hb i Hi) as [Hf _].
    rewrite Hidx in Hi. apply list_elem_of_In, filter_In in Hi as [Hi _].
    apply list_elem_of_In, elem_of_np_where_gt in Hi as (v & Hv & Hlt).
    destruct (lookup_lt_is_Some_2 freqs i Hf) as [f Hfi]. by exists v, f.
  - unfold spec_cleaned. by rewrite length_imap.
Qed.

End Detector.

(** ** The remover on every chunk (C2) *)

Lemma StronglySorted_lt_unique (l1 l2 : list nat) :
  StronglySorted lt l1 -> StronglySorted lt l2 ->
  (∀ i, i ∈ l1 ↔ i ∈ l2) -> l1 = l2.
Proof.
  intros H1. revert l2. induction H1 as [|a l1 Hs1 IH Ha]; intros l2 H2 Heq.
  - destruct l2 as [|b l2]; [done|].
    assert (b ∈ []) as Hb by (apply Heq; left). by apply elem_of_nil in Hb.
  - destruct H2 as [|b l2 Hs2 Hb].
    { assert (a ∈ []) as Hin by (apply Heq; left). by apply elem_of_nil in Hin. }
    rewrite Forall_forall in Ha, Hb.
    assert (a = b) as <-.
    { assert (a ∈ b :: l2) as Hab by (apply Heq; left).
      assert (b ∈ a :: l1) as Hba by (apply Heq; left).
      apply elem_of_cons in Hab as [?|Hab]; [done|].
      apply elem_of_cons in Hba as [?|Hba]; [done|].
      pose proof (Ha b Hba). pose proof (Hb a Hab). lia. }
    f_equal. apply IH; [done|]. intros i. split; intros Hi.
    + assert (i ∈ a :: l2) as Hi' by (apply Heq; by right).
      apply elem_of_cons in Hi' as [->|?]; [|done].
      pose proof (Ha a Hi). lia.
    + assert (i ∈ a :: l1) as Hi' by (apply Heq; by right).
      apply elem_of_cons in Hi' as [->|?]; [|done].
      pose proof (Hb a Hi). lia.
Qed.

Lemma selected_bins_sorted (lf nw : pyarg) (freqs f_stat : list Qc) thr :
  StronglySorted lt (selected_bins lf nw freqs f_stat thr).
Proof.
  unfold selected_bins.
  destruct lf as [| | |fa]; try apply where_from_sorted.
  destruct nw as [| | |wa]; try apply where_from_sorted.
  apply StronglySorted_List_filter, where_from_sorted.
Qed.

Lemma selected_bins_significant (lf nw : pyarg) (freqs f_stat : list Qc) thr :
  validated lf nw -> length freqs = length f_stat ->
  ∀ i, i ∈ selected_bins lf nw freqs f_stat thr ↔
       significant lf nw freqs f_stat thr i.
Proof.
  intros [->|(fa & wa & -> & -> & Hlen)] Hf i; unfold selected_bins, significant.
  - rewrite elem_of_np_where_gt. tauto.
  - rewrite list_elem_of_In, filter_In, <- list_elem_of_In.
    rewrite elem_of_np_where_gt, in_ranges_spec. split.
    + intros [(v & Hv & Hthr) (k & freq & width & Hk & Hw & Hin)].
      split; [by exists v|].
      assert (i < length freqs) as Hi.
      { rewrite Hf. by eapply lookup_lt_Some. }
      destruct (lookup_lt_is_Some_2 _ _ Hi) as [f Hfi].
      rewrite Hfi in Hin. by exists f, k, freq, width.
    + intros [Hv (f & k & freq & width & Hfi & Hk & Hw & Hin)].
      split; [done|]. exists k, freq, width. by rewrite Hfi.
Qed.

(** C2: let [bins] be the significant bins of a chunk, in increasing
    order: the bins whose F statistic exceeds the threshold and, with
    targets, whose frequency lies in a notch.  [filter.py] returns, for
    every chunk, the chunk minus the sum over [bins] of the sinusoids
    [|2A| cos(2 pi f t + angle(2A))] at [t = sample_index / sfreq],
    together with the frequencies of [bins]; with no significant bin the
    chunk comes back unchanged.  [mt_filter.py] returns the same for a
    chunk that has the length of the default taper set, and for a chunk
    of any other length, as [__call__] hands it over, it raises
    [AttributeError], significant bins or not. *)
Theorem remover_subtracts_fitted_sinusoids `{NumLib}
    (x : list Qc) (sf : Qc) (lf nw : pyarg) (wf : tapers) (thr : Qc)
    (bins : list nat) :
  let freqs := (mt_spectra x wf sf).2 in
  let f_stat := (sine_f_test wf (mt_spectra x wf sf).1).1 in
  let A := (sine_f_test wf (mt_spectra x wf sf).1).2 in
  let cleaned := spec_cleaned sf freqs A bins x in
  let removed := (fun i => default 0%Qc (freqs !! i)) <$> bins in
  validated lf nw ->
  length freqs = length f_stat -> length A = length f_stat ->
  StronglySorted lt bins ->
  (∀ i, i ∈ bins ↔ significant lf nw freqs f_stat thr i) ->
  (∀ wf0 thr0 get, settled x wf0 thr0 get wf thr ->
     Filter._mt_remove x sf lf nw wf0 thr0 get = ret (cleaned, removed)) ∧
  (∀ get, length x = taper_len wf ->
     MtFilter._mt_remove x sf lf nw wf thr get = ret (cleaned, removed)) ∧
  (∀ self wf0 thr0, length x ≠ taper_len wf0 ->
     MtFilter._mt_remove x sf lf nw wf0 thr0 (MtFilter.BoundMethod self) =
       raise AttributeError) ∧
  (bins = [] -> cleaned = x ∧ removed = []).
Proof.
  intros freqs f_stat A cleaned removed Hv Hf HA Hsorted Hbins.
  assert (bins = selected_bins lf nw freqs f_stat thr) as Heq.
  { apply StronglySorted_lt_unique; [done|apply selected_bins_sorted|].
    intros i. rewrite Hbins. symmetry. by apply selected_bins_significant. }
  pose proof (remove_lines_selected x sf lf nw wf thr Hv Hf HA) as Hr.
  fold freqs f_stat A in Hr. rewrite <- Heq in Hr. fold cleaned removed in Hr.
  split; [|split; [|split]].
  - intros wf0 thr0 get Hs.
    by rewrite (Filter_mt_remove_settled _ _ _ _ _ _ _ wf thr).
  - intros get Hlen. by rewrite MtFilter_mt_remove_same_length.
  - intros self wf0 thr0 Hlen. unfold MtFilter._mt_remove.
    rewrite decide_True by done. cbn [MtFilter.attr_func]. by msimpl.
  - intros Hb. unfold cleaned, removed. rewrite Hb. split; [|done].
    apply spec_cleaned_nil.
Qed.

Lemma remover_subtracts_fitted_sinusoids_witness :
  let L := demo_lib [qz 0; qz 60] in
  let x := qz <$> [5; 1; 2]%Z in
  (∃ R, @Filter._mt_remove L x (qz 1000) PyNone PyNone (4, 3) (Q2Qc (1 # 2))
          (fun _ => raise RuntimeError) = ret R ∧
        @MtFilter._mt_remove L x (qz 1000) PyNone PyNone (4, 3) (Q2Qc (1 # 2))
          (MtFilter.BoundMethod demo_remover) = ret R) ∧
  @MtFilter._mt_remove L x (qz 1000) PyNone PyNone (4, 4) (Q2Qc (1 # 2))
    (MtFilter.BoundMethod demo_remover) = raise AttributeError.
Proof.
  intros L x.
  destruct (@remover_subtracts_fitted_sinusoids L x (qz 1000) PyNone PyNone
              (4, 3) (Q2Qc (1 # 2)) [0; 1]) as (HF & HM & HB & _).
  - by left.
  - reflexivity.
  - reflexivity.
  - repeat constructor; lia.
  - intros i. unfold significant. split.
    + intros Hi. split; [|exact I]. exists (qz 5).
      apply elem_of_cons in Hi as [->|Hi];
        [|apply elem_of_cons in Hi as [->|Hi]; [|by apply elem_of_nil in Hi]];
        (split; [reflexivity|by vm_compute]).
    + intros [(v & Hv & _) _].
      destruct i as [|[|i]]; [left|right; left|discriminate Hv].
  - split.
    + eexists. split.
      * apply HF. left. repeat split; reflexivity.
      * apply HM. reflexivity.
    + apply HB. cbn. lia.
Defined.

(** X1: Every bin [_mt_remove] removes from a chunk is a bin whose F
    statistic exceeds the threshold the chunk is processed with, each bin
    at most once and in increasing order; the cleaned chunk has the
    length of the chunk and nothing is logged.  This needs no assumption
    on the targets and the widths: whenever the call returns, this is
    what it returned. *)
Theorem removed_bins_exceed_threshold `{NumLib}
    (x : list Qc) (sf : Qc) (lf nw : pyarg) (wf : tapers) (thr : Qc)
    (y r : list Qc) (l : list report) :
  let freqs := (mt_spectra x wf sf).2 in
  let f_stat := (sine_f_test wf (mt_spectra x wf sf).1).1 in
  let A := (sine_f_test wf (mt_spectra x wf sf).1).2 in
  (∃ wf0 thr0 get, settled x wf0 thr0 get wf thr ∧
     Filter._mt_remove x sf lf nw wf0 thr0 get = (l, inr (y, r))) ∨
  (∃ get, length x = taper_len wf ∧
     MtFilter._mt_remove x sf lf nw wf thr get = (l, inr (y, r))) ->
  ∃ bins,
    StronglySorted lt bins ∧
    (∀ i, i ∈ bins ->
       ∃ v f, f_stat !! i = Some v ∧ (thr < v)%Qc ∧ freqs !! i = Some f) ∧
    r = (fun i => default 0%Qc (freqs !! i)) <$> bins ∧
    y = spec_cleaned sf freqs A bins x ∧
    length y = length x ∧ l = [].
Proof.
  intros freqs f_stat A [(wf0 & thr0 & get & Hs & Hrun)|(get & Hlen & Hrun)].
  - rewrite (Filter_mt_remove_settled x sf lf nw _ _ _ _ _ Hs) in Hrun.
    by eapply remove_lines_bins.
  - rewrite MtFilter_mt_remove_same_length in Hrun by done.
    by eapply remove_lines_bins.
Qed.

Lemma removed_bins_exceed_threshold_witness :
  ∃ bins,
    StronglySorted lt bins ∧
    (∀ i, i ∈ bins ->
       ∃ v f, replicate 3 (qz 5) !! i = Some v ∧ (Q2Qc (79 # 80) < v)%Qc ∧
              demo_axis !! i = Some f) ∧
    [qz 60] = (fun i => default 0%Qc (demo_axis !! i)) <$> bins.
Proof.
  destruct (@removed_bins_exceed_threshold (demo_lib demo_axis)
              (qz <$> [5; 1; 2; 3]%Z) (qz 1000) (PyArr (IntArr [60%Z]))
              (PyArr (IntArr [10%Z])) (4, 4) (Q2Qc (79 # 80))
              (qz <$> [0; -4; -3; -2]%Z) [qz 60] [])
    as (bins & Hs & Hb & Hr & _).
  - left. exists (4, 4), (Q2Qc (79 # 80)), demo_get_wt4. split.
    + left. repeat split; reflexivity.
    + compute_done.
  - exists bins. split; [exact Hs|]. split; [exact Hb|exact Hr].
Defined.

(** X2: Raising the threshold never adds a removed frequency, and never
    makes the call fail: when [_mt_remove] returns for a chunk at one
    threshold, it returns at any higher threshold, and the frequencies it
    then removes are among those it removed before, in the same order. *)
Theorem stricter_threshold_removes_fewer `{NumLib}
    (x : list Qc) (sf : Qc) (lf nw : pyarg) (wf : tapers) (thr1 thr2 : Qc) :
  (thr1 ≤ thr2)%Qc -> length x = taper_len wf ->
  (∀ get y1 r1 l1,
     Filter._mt_remove x sf lf nw wf thr1 get = (l1, inr (y1, r1)) ->
     ∃ y2 r2, Filter._mt_remove x sf lf nw wf thr2 get = ret (y2, r2) ∧
              r2 `sublist_of` r1) ∧
  (∀ get y1 r1 l1,
     MtFilter._mt_remove x sf lf nw wf thr1 get = (l1, inr (y1, r1)) ->
     ∃ y2 r2, MtFilter._mt_remove x sf lf nw wf thr2 get = ret (y2, r2) ∧
              r2 `sublist_of` r1).
Proof.
  intros Hle Hlen. split; intros get y1 r1 l1.
  - rewrite !Filter_mt_remove_same_length by done. by apply remove_lines_mono.
  - rewrite !MtFilter_mt_remove_same_length by done. by apply remove_lines_mono.
Qed.

Lemma stricter_threshold_removes_fewer_witness :
  ∃ y2 r2,
    @Filter._mt_remove (demo_lib demo_axis) (qz <$> [5; 1; 2; 3]%Z) (qz 1000)
       (PyArr (IntArr [60%Z])) (PyArr (IntArr [10%Z])) (4, 4) (qz 7)
       demo_get_wt4 = ret (y2, r2) ∧
    r2 `sublist_of` [qz 60].
Proof.
  destruct (@stricter_threshold_removes_fewer (demo_lib demo_axis)
              (qz <$> [5; 1; 2; 3]%Z) (qz 1000) (PyArr (IntArr [60%Z]))
              (PyArr (IntArr [10%Z])) (4, 4) (Q2Qc (79 # 80)) (qz 7))
    as [HF _].
  - vm_compute. discriminate.
  - reflexivity.
  - apply (HF demo_get_wt4 (qz <$> [0; -4; -3; -2]%Z) [qz 60] []).
    compute_done.
Defined.

(** ** The default notch *)

Lemma Qc_of_Z_400 : Qc_of_Z 400 = (Qc_of_Z 200 * 2)%Qc.
Proof. by apply Qc_is_canon. Qed.

Lemma Qc_of_Z_200_neq_0 : Qc_of_Z 200 ≠ 0%Qc.
Proof. by intros [=]. Qed.

Lemma half_of_200th (f : Qc) : (f / Qc_of_Z 200 / 2 = f / Qc_of_Z 400)%Qc.
Proof.
  rewrite Qc_of_Z_400. pose proof Qc_of_Z_200_neq_0. field. done.
Qed.

(** X3: Without [notch_widths] the stop band of a target frequency [f] is
    [f / 200] wide: the filter of [_mt_remove] keeps the bins within
    [f / 400] of a target, and no others. *)
Theorem default_notch_is_half_percent (freqs : pyarg) (fa : ndarray1) :
  freqs ≠ PyNone -> np_atleast_1d freqs = ret fa ->
  ∃ wa,
    notch_setup freqs PyNone = ret (PyArr fa, PyArr wa) ∧
    ∀ g, in_ranges (notch_ranges (arr_items fa) (arr_items wa)) g = true ↔
         ∃ f, f ∈ arr_items fa ∧
              (to_float f - to_float f / Qc_of_Z 400 ≤ g)%Qc ∧
              (g ≤ to_float f + to_float f / Qc_of_Z 400)%Qc.
Proof.
  intros Hf Hfa. exists (np_div_float fa (Qc_of_Z 200)). split.
  - unfold notch_setup. destruct freqs; [done|..]; cbv beta iota;
      rewrite Hfa; by msimpl.
  - intros g. rewrite in_ranges_spec. unfold in_notch, np_div_float.
    cbn [arr_items]. split.
    + intros (k & freq & width & Hk & Hw & H1 & H2).
      rewrite !list_lookup_fmap, Hk in Hw. injection Hw as <-.
      cbn [to_float] in H1, H2. rewrite half_of_200th in H1, H2.
      exists freq. split; [by eapply list_elem_of_lookup_2|done].
    + intros (f & Hin & H1 & H2).
      apply list_elem_of_lookup in Hin as [k Hk].
      exists k, f, (NFloat (to_float f / Qc_of_Z 200)). split; [done|].
      split; [by rewrite !list_lookup_fmap, Hk|].
      cbn [to_float]. by rewrite half_of_200th.
Qed.

Lemma default_notch_is_half_percent_witness :
  ∃ wa,
    notch_setup (PySeq [NInt 60]) PyNone = ret (PyArr (IntArr [60%Z]), PyArr wa) ∧
    ∀ g, in_ranges (notch_ranges (arr_items (IntArr [60%Z])) (arr_items wa)) g
           = true ↔
         ∃ f, f ∈ arr_items (IntArr [60%Z]) ∧
              (to_float f - to_float f / Qc_of_Z 400 ≤ g)%Qc ∧
              (g ≤ to_float f + to_float f / Qc_of_Z 400)%Qc.
Proof.
  apply (default_notch_is_half_percent (PySeq [NInt 60]) (IntArr [60%Z])).
  - discriminate.
  - reflexivity.
Defined.

(** ** The summary when nothing was removed *)

Lemma spec_chunk_count_pos (k : Z) (chunks : list (list Qc)) :
  0 < spec_chunk_count k chunks ↔
  ∃ ff, ff ∈ chunks ∧ k ∈ (np_round <$> ff).
Proof.
  unfold spec_chunk_count. split.
  - intros Hpos.
    destruct (filter _ chunks) as [|ff t] eqn:Hfl; [cbn in Hpos; lia|].
    assert (ff ∈ filter (fun ff => k ∈ np_round <$> ff) chunks) as Hin
      by (rewrite Hfl; left).
    apply list_elem_of_filter in Hin as [Hk Hin]. by exists ff.
  - intros (ff & Hin & Hk).
    assert (ff ∈ filter (fun ff => k ∈ np_round <$> ff) chunks) as Hf
      by (by apply list_elem_of_filter).
    destruct (filter _ chunks); [by apply elem_of_nil in Hf|cbn; lia].
Qed.

(** X4: The logged table is empty (the summary then reads "None") exactly
    when no chunk had a frequency removed: in [filter.py] no chunk of any
    channel, in [mt_filter.py] no chunk of the channel. *)
Theorem report_is_empty_iff_nothing_removed :
  (∀ freq_list : list (list (list Qc)),
     Filter_table freq_list = [] ↔
     ∀ f ff, f ∈ freq_list -> ff ∈ f -> ff = []) ∧
  (∀ rm_freqs : list (list Qc),
     MtFilter_table rm_freqs = [] ↔ ∀ ff, ff ∈ rm_freqs -> ff = []).
Proof.
  split.
  - intros fl. destruct (Filter_table_spec fl) as [_ Hc]. split.
    + intros Hnil f ff Hf Hff. destruct ff as [|q ff]; [done|]. exfalso.
      assert (0 < spec_chunk_count (np_round q) (concat fl)) as Hpos.
      { apply spec_chunk_count_pos. exists (q :: ff). split.
        - apply elem_of_concat. by exists f.
        - cbn. left. }
      assert ((np_round q, spec_chunk_count (np_round q) (concat fl))
                ∈ Filter_table fl) as Hin by (by apply Hc).
      rewrite Hnil in Hin. by apply elem_of_nil in Hin.
    + intros Hall. destruct (Filter_table fl) as [|[k c] t] eqn:Ht; [done|].
      exfalso.
      assert ((k, c) ∈ (k, c) :: t) as Hin by left.
      apply Hc in Hin as [-> Hpos].
      apply spec_chunk_count_pos in Hpos as (ff & Hff & Hk).
      apply elem_of_concat in Hff as (f & Hff & Hf).
      rewrite (Hall f ff Hf Hff) in Hk. by apply elem_of_nil in Hk.
  - intros rm. destruct (MtFilter_table_keys rm) as [_ Hk]. split.
    + intros Hnil ff Hff. destruct ff as [|q ff]; [done|]. exfalso.
      assert (np_round q ∈ fst <$> MtFilter_table rm) as Hin.
      { apply Hk. exists (q :: ff), q. split; [done|]. split; [left|done]. }
      rewrite Hnil in Hin. by apply elem_of_nil in Hin.
    + intros Hall. destruct (MtFilter_table rm) as [|[k c] t] eqn:Ht; [done|].
      exfalso.
      assert (k ∈ fst <$> (k, c) :: t) as Hin by (cbn; left).
      apply Hk in Hin as (ff & f & Hff & Hf & _).
      rewrite (Hall ff Hff) in Hf. by apply elem_of_nil in Hf.
Qed.

(** ** The picks of [filter.py] *)

Lemma channels_ext `{NumLib} filt (p1 p2 : list nat) :
  (∀ i, i ∈ p1 ↔ i ∈ p2) ->
  ∀ xs ii, Filter.channels filt p1 ii xs = Filter.channels filt p2 ii xs.
Proof.
  intros Hp. induction xs as [|x xs IH]; intros ii; cbn [Filter.channels];
    [done|].
  rewrite (bool_decide_ext (ii ∈ p1) (ii ∈ p2)) by apply Hp.
  by rewrite IH.
Qed.

(** X5: In [filter.py] the picks count as a set: two selections that expand
    to the same rows, in whatever order and however often each row is
    named, give the same filtered buffer and the same log. *)
Theorem Filter_picks_count_as_a_set `{NumLib}
    (x : ndarray) (sf : Qc) (lf nw : pyarg)
    (get : option nat -> M (tapers * Qc))
    (picks1 picks2 : option (list Z)) x1 os1 pk1 x2 os2 pk2 :
  prep_for_filtering x picks1 = ret (x1, os1, pk1) ->
  prep_for_filtering x picks2 = ret (x2, os2, pk2) ->
  (∀ i, i ∈ pk1 ↔ i ∈ pk2) ->
  Filter.mt_spectrum_proc x sf lf nw picks1 get =
  Filter.mt_spectrum_proc x sf lf nw picks2 get.
Proof.
  intros H1 H2 Hset. unfold Filter.mt_spectrum_proc. rewrite H1, H2. msimpl.
  destruct (prep_for_filtering_inv _ _ _ _ _ _ H1) as (-> & _ & ->).
  destruct (prep_for_filtering_inv _ _ _ _ _ _ H2) as (-> & _ & ->).
  cbv beta iota. by rewrite (channels_ext _ pk1 pk2 Hset).
Qed.

Lemma Filter_picks_count_as_a_set_witness :
  @Filter.mt_spectrum_proc (demo_lib demo_axis) demo_buffer (qz 1000)
     (PyArr (IntArr [60%Z])) (PyArr (IntArr [10%Z])) (Some [0; 1]%Z)
     demo_get_wt =
  @Filter.mt_spectrum_proc (demo_lib demo_axis) demo_buffer (qz 1000)
     (PyArr (IntArr [60%Z])) (PyArr (IntArr [10%Z])) (Some [1; 0; 1]%Z)
     demo_get_wt.
Proof.
  eapply (@Filter_picks_count_as_a_set (demo_lib demo_axis));
    [reflexivity|reflexivity|].
  intros i. cbn [fmap list_fmap Z.to_nat Pos.to_nat Pos.iter_op Nat.add].
  rewrite !elem_of_cons, !elem_of_nil. tauto.
Defined.

(** ** A window of no samples *)

(** X6: A window length of zero samples (a recording without samples, or a
    [filter_length] that converts to none) stops the filter in the
    threshold computation: [p_value / n_times] divides by zero, unless
    the taper routine has already raised.  No channel is ever
    returned. *)
Theorem zero_window_never_filters `{NumLib} :
  (∀ x sf lf nw fs bw p lb ad,
     Filter._mt_remove_win x sf lf nw
       (Filter.get_window_thresh fs bw p lb ad 0) =
     raise (match mt_params 0 fs bw lb ad with
            | inl e => e
            | inr _ => ZeroDivisionError
            end)) ∧
  (∀ sf lf nw lb ad bw p x,
     MtFilter.__call__ (MtFilter.__init__ sf lf nw 0 lb ad bw p) x =
     raise (match mt_params 0 sf bw lb ad with
            | inl e => e
            | inr _ => match p with
                       | None => TypeError
                       | Some _ => ZeroDivisionError
                       end
            end)).
Proof.
  split.
  - intros x sf lf nw fs bw p lb ad.
    unfold Filter._mt_remove_win, Filter.get_window_thresh.
    cbn [from_option id]. destruct (mt_params 0 fs bw lb ad); by msimpl.
  - intros sf lf nw lb ad bw p x.
    unfold MtFilter.__call__, MtFilter.get_thresh, MtFilter.__init__.
    cbn [from_option id MtFilter.filter_length MtFilter.sfreq
         MtFilter.bandwidth MtFilter.low_bias MtFilter.adaptive
         MtFilter.p_value].
    destruct (mt_params 0 sf bw lb ad); msimpl; [done|].
    destruct p; by msimpl.
Qed.

(** ** The closure [store] *)

Lemma zip_with_plus_zeros (seg : list Qc) :
  zip_with Qcplus (replicate (length seg) 0%Qc) seg = seg.
Proof.
  induction seg as [|v seg IH]; cbn; [done|]. rewrite IH. f_equal. ring.
Qed.

Lemma store_at_cursor (done_ seg : list Qc) (k : nat) rm :
  length seg ≤ k ->
  store (WinState (done_ ++ replicate k 0%Qc) rm (length done_)) seg =
    ret (WinState ((done_ ++ seg) ++ replicate (k - length seg) 0%Qc) rm
                  (length (done_ ++ seg))).
Proof.
  intros Hk. unfold store, slice_iadd. cbn [x_out idx rm_freqs].
  rewrite !length_app, length_replicate.
  rewrite !Nat.min_l by lia.
  replace (length done_ + length seg - length done_) with (length seg) by lia.
  rewrite drop_app_length, take_app_length, take_replicate.
  rewrite Nat.min_l by lia.
  rewrite decide_True by (by rewrite length_replicate).
  msimpl. rewrite zip_with_plus_zeros.
  rewrite drop_app_ge by lia.
  replace (length done_ + length seg - length done_) with (length seg) by lia.
  rewrite drop_replicate. by rewrite <- app_assoc.
Qed.

Lemma store_all_from (segs : list (list Qc)) :
  ∀ (done_ : list Qc) (k : nat) rm,
    length (concat segs) ≤ k ->
    store_all (WinState (done_ ++ replicate k 0%Qc) rm (length done_)) segs =
      ret (WinState ((done_ ++ concat segs)
                       ++ replicate (k - length (concat segs)) 0%Qc)
                    rm (length (done_ ++ concat segs))).
Proof.
  induction segs as [|seg segs IH]; intros done_ k rm Hk; cbn [store_all concat].
  - by rewrite app_nil_r, Nat.sub_0_r.
  - cbn [concat] in Hk. rewrite length_app in Hk.
    rewrite store_at_cursor by lia. msimpl.
    rewrite IH by lia. rewrite !length_app.
    replace (k - length seg - length (concat segs))
      with (k - (length seg + length (concat segs))) by lia.
    rewrite Nat.add_assoc. by rewrite <- !app_assoc.
Qed.

(** X7: [store] lays the segments it is handed back to back from the start
    of the output: after any sequence of segments that fits the channel,
    the output holds them in order, followed by the zeros not yet
    written, and the cursor is the number of samples stored.  So the
    assertion [idx[0] == n_times] holds exactly when the segments add up
    to the channel length. *)
Theorem store_lays_segments_back_to_back
    (n_times : nat) (segs : list (list Qc)) (rm : list (list Qc)) :
  length (concat segs) ≤ n_times ->
  ∃ st,
    store_all (WinState (replicate n_times 0%Qc) rm 0) segs = ret st ∧
    x_out st = concat segs ++ replicate (n_times - length (concat segs)) 0%Qc ∧
    idx st = length (concat segs) ∧ rm_freqs st = rm ∧
    (idx st = n_times ↔ x_out st = concat segs).
Proof.
  intros Hfit. eexists. split; [apply (store_all_from segs [] n_times rm Hfit)|].
  cbn [x_out idx rm_freqs app]. repeat split; try done.
  - intros Heq. rewrite Heq, Nat.sub_diag. cbn. by rewrite app_nil_r.
  - intros Heq. apply (f_equal length) in Heq.
    rewrite length_app, length_replicate in Heq. lia.
Qed.

Lemma store_lays_segments_back_to_back_witness :
  ∃ st,
    store_all (WinState (replicate 5 0%Qc) [] 0) [[qz 1; qz 2]; [qz 3]] = ret st ∧
    x_out st = [qz 1; qz 2; qz 3; 0%Qc; 0%Qc] ∧ idx st = 3.
Proof.
  destruct (store_lays_segments_back_to_back 5 [[qz 1; qz 2]; [qz 3]] [])
    as (st & Hrun & Hout & Hidx & _).
  - cbn. lia.
  - exists st. split; [exact Hrun|]. split; [exact Hout|exact Hidx].
Defined.

(** ** [_prep_for_filtering] *)

Lemma np_arange_epochs (n_ch n_ep : nat) :
  0 < n_ch ->
  np_arange (n_ch * n_ep) n_ch = ret ((fun e => e * n_ch) <$> seq 0 n_ep).
Proof.
  intros Hn. unfold np_arange. rewrite decide_False by lia.
  replace ((n_ch * n_ep + n_ch - 1) / n_ch) with n_ep; [done|].
  replace (n_ch * n_ep + n_ch - 1) with (n_ep * n_ch + (n_ch - 1)) by lia.
  rewrite Nat.div_add_l by lia. rewrite Nat.div_small by lia. lia.
Qed.

Lemma zip_with_add_replicate (pk : list nat) (c : nat) :
  zip_with Nat.add pk (replicate (length pk) c) = (fun p => p + c) <$> pk.
Proof. induction pk as [|p pk IH]; cbn; [done|]. by rewrite IH. Qed.

Lemma tile_plus_offset (pk : list nat) (n_ch : nat) :
  ∀ n s,
    zip_with Nat.add (np_tile pk n)
      (np_repeat ((fun e => e * n_ch) <$> seq s n) (length pk)) =
    seq s n ≫= (fun e => (fun p => p + e * n_ch) <$> pk).
Proof.
  unfold np_tile, np_repeat.
  induction n as [|n IH]; intros s; [done|].
  cbn [replicate concat seq fmap list_fmap mbind list_bind].
  rewrite zip_with_app by (by rewrite length_replicate).
  by rewrite zip_with_add_replicate, IH.
Qed.

Lemma elem_of_expanded_picks (pk : list nat) (n_ch n_ep r : nat) :
  0 < n_ch -> (∀ p, p ∈ pk -> p < n_ch) ->
  r ∈ seq 0 n_ep ≫= (fun e => (fun p => p + e * n_ch) <$> pk) ↔
  r < n_ep * n_ch ∧ r mod n_ch ∈ pk.
Proof.
  intros Hn Hpk. rewrite list_elem_of_bind. split.
  - intros (e & Hr & He). apply elem_of_seq in He.
    apply list_elem_of_fmap in Hr as (p & -> & Hp).
    pose proof (Hpk p Hp). split; [nia|].
    rewrite Nat.Div0.mod_add. by rewrite Nat.mod_small.
  - intros [Hr Hm]. exists (r / n_ch). split.
    + apply list_elem_of_fmap. exists (r mod n_ch). split; [|done].
      pose proof (Nat.div_mod_eq r n_ch). lia.
    + apply elem_of_seq. split; [lia|]. cbn.
      apply Nat.Div0.div_lt_upper_bound. lia.
Qed.

Section Prep.
Context `{NumLib}.

Lemma prep_3d (x : ndarray) picks pk n_ep n_ch n_t :
  shape x = [n_ep; n_ch; n_t] -> 0 < n_ch ->
  picks_to_idx n_ch picks = inr pk -> (∀ p, p ∈ pk -> p < n_ch) ->
  prep_for_filtering x picks =
    ret (NDArray [n_ep * n_ch; n_t] (rows x), [n_ep; n_ch; n_t],
         seq 0 n_ep ≫= (fun e => (fun p => p + e * n_ch) <$> pk)).
Proof.
  intros Hs Hn Hp Hpk. unfold prep_for_filtering.
  assert (np_atleast_2d x = x) as -> by (unfold np_atleast_2d; by rewrite Hs).
  rewrite Hs. cbn [length Nat.sub nth]. rewrite Hp. msimpl.
  rewrite np_arange_epochs by done. msimpl.
  rewrite tile_plus_offset.
  cbn [removelast prod_list foldr last default from_option id hd shape].
  rewrite Nat.mul_1_r.
  rewrite (proj2 (forallb_forall _ _)).
  - done.
  - intros r Hr. apply bool_decide_eq_true.
    apply list_elem_of_In, elem_of_expanded_picks in Hr; [|done..]. lia.
Qed.

Lemma prep_low_dims (x : ndarray) picks pk :
  length (shape x) ≤ 2 ->
  picks_to_idx (n_channels x) picks = inr pk ->
  (∀ p, p ∈ pk -> p < n_channels x) ->
  ∃ x2, prep_for_filtering x picks = ret (x2, shape x, pk).
Proof.
  intros Hs Hp Hpk. unfold prep_for_filtering. fold (n_channels x).
  rewrite Hp. msimpl.
  assert (hd 0 [prod_list (removelast (shape (np_atleast_2d x)));
                default 0 (last (shape (np_atleast_2d x)))] = n_channels x)
    as Hhd.
  { unfold n_channels, np_atleast_2d.
    destruct (shape x) as [|a [|b [|c s]]] eqn:E; cbn; rewrite ?E; cbn in *; lia. }
  assert (forallb (fun pick => bool_decide (pick < n_channels x)) pk = true)
    as Hall.
  { apply forallb_forall. intros p Hp'. apply bool_decide_eq_true.
    by apply Hpk, list_elem_of_In. }
  destruct (shape x) as [|a [|b [|c s]]] eqn:Hshape; [..|cbn in Hs; lia];
    cbn [length]; (rewrite decide_False by lia); msimpl;
    cbn [shape]; rewrite Hhd, Hall; by eexists.
Qed.

Lemma prep_high_dims (x : ndarray) picks pk :
  3 < length (shape x) ->
  picks_to_idx (n_channels x) picks = inr pk ->
  prep_for_filtering x picks =
    raise (ValueError
      "picks argument is not supported for data with more than three dimensions").
Proof.
  intros Hs Hp. unfold prep_for_filtering. fold (n_channels x).
  rewrite Hp. msimpl.
  destruct (shape x) as [|a [|b [|c [|d s]]]] eqn:Hshape;
    try (cbn in Hs; lia).
  rewrite decide_True by done. by msimpl.
Qed.

End Prep.

(** X8: For a buffer of epochs ([n_epochs x n_channels x n_times]) the picked
    channels are picked in every epoch and nothing else is: row [r] of
    the flattened buffer is among the expanded picks exactly when its
    channel [r mod n_channels] is among the picks.  The buffer comes
    back as [n_epochs * n_channels] rows, and the assertion on the picks
    cannot fail. *)
Theorem prep_picks_cover_every_epoch `{NumLib}
    (x : ndarray) (picks : option (list Z)) (pk : list nat)
    (n_ep n_ch n_t : nat) :
  shape x = [n_ep; n_ch; n_t] -> 0 < n_ch ->
  picks_to_idx n_ch picks = inr pk -> (∀ p, p ∈ pk -> p < n_ch) ->
  ∃ expanded,
    prep_for_filtering x picks =
      ret (NDArray [n_ep * n_ch; n_t] (rows x), [n_ep; n_ch; n_t], expanded) ∧
    ∀ r, r ∈ expanded ↔ r < n_ep * n_ch ∧ r mod n_ch ∈ pk.
Proof.
  intros Hs Hn Hp Hpk. eexists. split; [by apply prep_3d|].
  intros r. by apply elem_of_expanded_picks.
Qed.

Lemma prep_picks_cover_every_epoch_witness :
  ∃ expanded,
    @prep_for_filtering (demo_lib demo_axis)
      (NDArray [2; 3; 1] (replicate 6 [qz 0])) (Some [0; 2]%Z) =
      ret (NDArray [2 * 3; 1] (replicate 6 [qz 0]), [2; 3; 1], expanded) ∧
    ∀ r, r ∈ expanded ↔ r < 2 * 3 ∧ r mod 3 ∈ [0; 2].
Proof.
  apply (@prep_picks_cover_every_epoch (demo_lib demo_axis)
           (NDArray [2; 3; 1] (replicate 6 [qz 0])) (Some [0; 2]%Z) [0; 2]
           2 3 1).
  - reflexivity.
  - lia.
  - reflexivity.
  - intros p. rewrite !elem_of_cons, elem_of_nil. lia.
Defined.

(** X9: With picks that resolve to channels of the buffer,
    [_prep_for_filtering] returns exactly when the buffer has at most
    three dimensions; with more it raises the [ValueError] about the
    picks argument, whatever the picks are, [None] included. *)
Theorem prep_returns_iff_at_most_3d `{NumLib}
    (x : ndarray) (picks : option (list Z)) (pk : list nat) :
  picks_to_idx (n_channels x) picks = inr pk ->
  (∀ p, p ∈ pk -> p < n_channels x) ->
  (length (shape x) = 3 -> 0 < n_channels x) ->
  (is_Some (returned (prep_for_filtering x picks)) ↔ length (shape x) ≤ 3) ∧
  (3 < length (shape x) ->
   prep_for_filtering x picks =
     raise (ValueError
       "picks argument is not supported for data with more than three dimensions")).
Proof.
  intros Hp Hpk H3. split; [split|].
  - intros Hret. destruct (decide (length (shape x) ≤ 3)) as [|Hn]; [done|].
    rewrite (prep_high_dims x picks pk ltac:(lia) Hp) in Hret.
    by destruct Hret.
  - intros Hle. destruct (decide (length (shape x) = 3)) as [H3'|Hne].
    + destruct (shape x) as [|a [|b [|c [|d s]]]] eqn:Hs; try done.
      assert (n_channels x = b) as Hb
        by (unfold n_channels, np_atleast_2d; rewrite Hs; cbn; by rewrite Hs).
      rewrite Hb in *.
      rewrite (prep_3d x picks pk a b c) by auto. by eexists.
    + destruct (prep_low_dims x picks pk) as [x2 ->]; [lia|done..|].
      by eexists.
  - intros Hgt. by eapply prep_high_dims.
Qed.

Lemma prep_returns_iff_at_most_3d_witness :
  @prep_for_filtering (demo_lib demo_axis)
    (NDArray [1; 1; 1; 1] [[qz 0]]) None =
  raise (ValueError
    "picks argument is not supported for data with more than three dimensions").
Proof.
  destruct (@prep_returns_iff_at_most_3d (demo_lib demo_axis)
              (NDArray [1; 1; 1; 1] [[qz 0]]) None [0]) as [_ Hr].
  - reflexivity.
  - intros p. rewrite elem_of_cons, elem_of_nil. cbn. lia.
  - cbn. lia.
  - apply Hr. cbn. lia.
Defined.

(** ** The checks of [utils.py] and [_check_filterable] *)

Lemma all_ints_NInt (zs : list Z) : all_ints (NInt <$> zs) = Some zs.
Proof. induction zs as [|z zs IH]; cbn; [done|]. by rewrite IH. Qed.

Lemma np_array_ints (zs : list Z) :
  zs ≠ [] -> np_array (NInt <$> zs) = IntArr zs.
Proof.
  intros Hz. unfold np_array. rewrite all_ints_NInt.
  by destruct zs.
Qed.

Section Checks.
Variable float_parses : string -> bool.

Lemma check_filterable_array (a : ndarray1) (kind : string) :
  _check_filterable float_parses (ObjArray a) kind =
    match a with
    | FloatArr _ => ret a
    | IntArr _ =>
      raise (ValueError
               ("Data to be " +:+ kind +:+ " must be real floating, got int64"))
    end.
Proof. by destruct a. Qed.

Lemma check_filterable_sequence (x : pyobj) (l : list npnum) (kind : string) :
  x = ObjList l ∨ x = ObjTuple l ->
  _check_filterable float_parses x kind =
  _check_filterable float_parses (ObjArray (np_array l)) kind.
Proof. by intros [-> | ->]. Qed.

Lemma check_filterable_other (x : pyobj) (kind : string) :
  (∀ a, x ≠ ObjArray a) -> (∀ l, x ≠ ObjList l) -> (∀ l, x ≠ ObjTuple l) ->
  _check_filterable float_parses x kind = raise TypeError.
Proof.
  intros Ha Hl Ht.
  destruct x as [| | | | |[]| | | | | |]; try done.
  - by destruct (Hl l).
  - by destruct (Ht l).
  - by destruct (Ha a).
Qed.

Lemma check_filterable_returns (x : pyobj) (kind : string) (a : ndarray1) l :
  _check_filterable float_parses x kind = (l, inr a) ->
  l = [] ∧ (∃ qs, a = FloatArr qs) ∧
  (x = ObjArray a ∨ ∃ items, (x = ObjList items ∨ x = ObjTuple items) ∧
                             a = np_array items).
Proof.
  assert (∀ a0 : ndarray1,
            _check_filterable float_parses (ObjArray a0) kind = (l, inr a) ->
            l = [] ∧ (∃ qs, a = FloatArr qs) ∧ a0 = a) as Harr.
  { intros a0. rewrite check_filterable_array. destruct a0; [done|].
    intros [= <- <-]. split; [done|]. split; [by eexists|done]. }
  destruct x as [| | | | |[]|items|items|a0| | |]; try (by cbn).
  - rewrite (check_filterable_sequence (ObjList items) items kind)
      by (by left).
    intros (-> & Hq & Ha)%Harr. split; [done|]. split; [done|].
    right. exists items. split; [by left|done].
  - rewrite (check_filterable_sequence (ObjTuple items) items kind)
      by (by right).
    intros (-> & Hq & Ha)%Harr. split; [done|]. split; [done|].
    right. exists items. split; [by right|done].
  - intros (-> & Hq & ->)%Harr. split; [done|]. split; [done|]. by left.
Qed.

End Checks.

(** X10: [_check_filterable] is idempotent: what it returns is a float array
    that it accepts again and returns unchanged, under any [kind].  So
    the second check, at the start of [_prep_for_filtering], cannot fail
    on data that passed the check of [line_filter]. *)
Theorem check_filterable_idempotent (float_parses : string -> bool)
    (x : pyobj) (kind : string) (a : ndarray1) (l : list report) :
  _check_filterable float_parses x kind = (l, inr a) ->
  l = [] ∧
  ∀ kind', _check_filterable float_parses (ObjArray a) kind' = ret a.
Proof.
  intros Hc. apply check_filterable_returns in Hc as (-> & [qs ->] & _).
  split; [done|]. intros kind'. by rewrite check_filterable_array.
Qed.

Lemma check_filterable_idempotent_witness :
  _check_filterable (fun _ => false)
    (ObjArray (FloatArr [qz 1; qz 2])) "notch filtered" =
  ret (FloatArr [qz 1; qz 2]).
Proof.
  destruct (check_filterable_idempotent (fun _ => false)
              (ObjList [NFloat (qz 1); NInt 2]) "filtered"
              (FloatArr [qz 1; qz 2]) []) as [_ Hi].
  - compute_done.
  - apply Hi.
Defined.

(** X11: What [_check_filterable] lets through: it returns exactly for a
    float array, which it returns as it is, and for a list or a tuple of
    numbers that is empty or holds a float, which it returns as a float
    array.  An instance of a recording class is a [TypeError], and so is
    anything that is no array, list or tuple; integer data, a non-empty
    list of ints included, is a [ValueError]. *)
Theorem check_filterable_wants_float_data (float_parses : string -> bool)
    (kind : string) :
  (∀ x a,
     _check_filterable float_parses x kind = ret a ↔
     (∃ qs, a = FloatArr qs) ∧
     (x = ObjArray a ∨
      ∃ items, (x = ObjList items ∨ x = ObjTuple items) ∧ a = np_array items)) ∧
  (∀ raw, _check_filterable float_parses (ObjSignal raw) kind = raise TypeError) ∧
  (∀ x, (∀ a, x ≠ ObjArray a) -> (∀ l, x ≠ ObjList l) ->
        (∀ l, x ≠ ObjTuple l) ->
        _check_filterable float_parses x kind = raise TypeError) ∧
  (∀ zs, zs ≠ [] ->
     ∀ x, x = ObjArray (IntArr zs) ∨ x = ObjList (NInt <$> zs)
          ∨ x = ObjTuple (NInt <$> zs) ->
     _check_filterable float_parses x kind =
       raise (ValueError
                ("Data to be " +:+ kind +:+ " must be real floating, got int64"))).
Proof.
  split; [|split; [|split]].
  - intros x a. split.
    + intros Hc. by apply check_filterable_returns in Hc as (_ & ? & ?).
    + intros [[qs ->] [->|(items & Hx & Ha)]].
      * by rewrite check_filterable_array.
      * rewrite (check_filterable_sequence _ x items kind Hx), <- Ha.
        by rewrite check_filterable_array.
  - done.
  - intros x. apply check_filterable_other.
  - intros zs Hz x [->|Hx].
    + by rewrite check_filterable_array.
    + rewrite (check_filterable_sequence _ x (NInt <$> zs) kind Hx).
      by rewrite check_filterable_array, np_array_ints.
Qed.

(** X12: [validate_type(item, int)] passes exactly for a Python int that is
    not a bool and for a NumPy integer, and is a [TypeError] for
    anything else; what passes as [int] passes as [float]; a bool, an
    instance of [int] for [isinstance] and for [validate_type] with a
    tuple of classes, does not pass as [int]. *)
Theorem validate_type_int_rejects_bool (float_parses : string -> bool) :
  (∀ item,
     (validate_type float_parses item (Class cls_int) = ret tt ↔
      ∃ z, item = ObjInt z ∨ item = ObjNpNum (NInt z)) ∧
     (validate_type float_parses item (Class cls_int) = ret tt ∨
      validate_type float_parses item (Class cls_int) = raise TypeError) ∧
     (validate_type float_parses item (Class cls_int) = ret tt ->
      validate_type float_parses item (Class cls_float) = ret tt)) ∧
  (∀ b, isinstance (ObjBool b) [cls_int] = true ∧
        validate_type float_parses (ObjBool b) (Classes [cls_int]) = ret tt ∧
        validate_type float_parses (ObjBool b) (Class cls_int) = raise TypeError).
Proof.
  split; [|done].
  intros item.
  destruct item as [|b|z|q|s|[z|q]|l|l|a|n|n|raw];
    (split; [split; [try done; by eexists; eauto
                    |try (intros [z' [?|?]]; done)]
            |split; [(by left) || (by right)|try done]]).
Qed.

(** ** Epochs in [filter.py] *)

(** X14: For a buffer of epochs, [filter.py] leaves a channel that is not
    picked unchanged in every epoch: row [e * n_channels + c] of the
    result is row [e * n_channels + c] of the input whenever channel [c]
    is not among the picks; and the result has the shape of the input. *)
Theorem Filter_epochs_unpicked_channel_unchanged `{NumLib}
    (x : ndarray) (sf : Qc) (lf nw : pyarg) (picks : option (list Z))
    (get : option nat -> M (tapers * Qc)) (y : ndarray) (l : list report)
    (pk : list nat) (n_ep n_ch n_t : nat) :
  shape x = [n_ep; n_ch; n_t] -> 0 < n_ch ->
  picks_to_idx n_ch picks = inr pk -> (∀ p, p ∈ pk -> p < n_ch) ->
  Filter.mt_spectrum_proc x sf lf nw picks get = (l, inr y) ->
  shape y = [n_ep; n_ch; n_t] ∧
  ∀ e c, c < n_ch -> c ∉ pk ->
         rows y !! (e * n_ch + c) = rows x !! (e * n_ch + c).
Proof.
  intros Hs Hn Hp Hpk Hm. split.
  - apply Filter_mt_spectrum_proc_inv in Hm
      as (x2 & pk' & ys & fl & l1 & l2 & _ & _ & -> & _).
    done.
  - intros e c Hc Hnot.
    apply Filter_unpicked_rows_unchanged in Hm as (x2 & pk' & l1 & Hprep & Hframe).
    rewrite (prep_3d x picks pk n_ep n_ch n_t Hs Hn Hp Hpk) in Hprep.
    injection Hprep as _ _ _ <-. apply Hframe.
    rewrite elem_of_expanded_picks by done. intros [_ Hin].
    rewrite Nat.add_comm, Nat.Div0.mod_add, Nat.mod_small in Hin by done.
    done.
Qed.

Lemma Filter_epochs_unpicked_channel_unchanged_witness :
  ∃ y l,
    @Filter.mt_spectrum_proc (demo_lib demo_axis) demo_epochs (qz 1000)
       (PyArr (IntArr [60%Z])) (PyArr (IntArr [10%Z])) (Some [0%Z])
       demo_get_wt = (l, inr y) ∧
    shape y = [2; 2; 3] ∧
    rows y !! (1 * 2 + 1) = rows demo_epochs !! (1 * 2 + 1).
Proof.
  eexists _, _. split; [vm_compute; reflexivity|].
  edestruct (@Filter_epochs_unpicked_channel_unchanged (demo_lib demo_axis)
               demo_epochs (qz 1000) (PyArr (IntArr [60%Z]))
               (PyArr (IntArr [10%Z])) (Some [0%Z]) demo_get_wt)
    as [Hshape Hrows].
  - reflexivity.
  - apply Nat.lt_0_succ.
  - reflexivity.
  - intros p. cbn [fmap list_fmap Z.to_nat].
    rewrite elem_of_cons, elem_of_nil. lia.
  - vm_compute. reflexivity.
  - split; [exact Hshape|]. apply Hrows; [lia|].
    cbn [fmap list_fmap Z.to_nat]. rewrite elem_of_cons, elem_of_nil. lia.
Defined.
